(** * lib_mail.mailbox: the [Mailbox] class of [src/lib_mail/mailbox.py]

    A shallow embedding of the incremental mailbox synchronisation code
    and the properties its specification states about it.

    Python values are modelled as follows.
    - [str] is a sequence of Unicode code points ([list N]); [bytes] is a
      sequence of octets ([list byte]); [int] is [Z].
    - Python's [None] is the [None] of an [option].
    - A computation that may raise is a value of [py A]; [try]/[except
      Exception] is [try_except]. A function whose body is one [try]
      statement comes with its [try] block as a definition of its own
      (suffix [_try]).
    - Everything that lives outside the repository (the interpreter's
      [int], the Unicode tables, the codec registry beyond the three
      standard codecs, [chardet], [email], [bs4], [re] on caller-supplied
      patterns, [read_json]) is a field of the record [Libraries]; the
      IMAP connection and the Redis client are data of their own.
    - [invoice_cls] and [idoc_cls] are opaque constructors: an [Invoice]
      and an [IDOC] record the arguments they were called with, and a
      generator is the list of what it yields. *)

From Stdlib Require Import ZArith NArith Strings.Byte Ascii String DecimalString Sorted.
From stdpp Require Import base tactics option list gmap.

Local Open Scope N_scope.

(** ** Text and octets *)

Abbreviation char := N (only parsing).
Abbreviation str := (list N) (only parsing).
Abbreviation bytes := (list byte) (only parsing).

(** A [str] literal and a [bytes] literal. *)
Definition u (s : string) : str := N_of_ascii <$> list_ascii_of_string s.
Definition b (s : string) : bytes := list_byte_of_string s.

(** ** Exceptions *)

Inductive exn : Type :=
  | TypeError
  | ValueError
  | AttributeError
  | LookupError
  | UnicodeDecodeError
  | LibraryError.   (* imaplib.IMAP4.error, redis.RedisError, OSError, ... *)

Inductive py (A : Type) : Type :=
  | Ret (a : A)
  | Raise (e : exn).
Arguments Ret {A} a.
Arguments Raise {A} e.

#[global] Instance py_ret : MRet py := @Ret.
#[global] Instance py_bind : MBind py := fun A B f m =>
  match m with
  | Ret a => f a
  | Raise e => Raise e
  end.
#[global] Instance py_fmap : FMap py := fun A B f m =>
  match m with
  | Ret a => Ret (f a)
  | Raise e => Raise e
  end.

(** [try: body / except Exception as e: handler]. *)
Definition try_except {A} (body : py A) (handler : exn -> py A) : py A :=
  match body with
  | Ret a => Ret a
  | Raise e => handler e
  end.

(** A list comprehension [[x for x in l if cond(x)]] whose condition may
    raise. *)
Fixpoint filterM {A} (cond : A -> py bool) (l : list A) : py (list A) :=
  match l with
  | [] => Ret []
  | x :: l' =>
      keep ← cond x;
      rest ← filterM cond l';
      Ret (if keep : bool then x :: rest else rest)
  end.

(** [x or default] on an optional string: [None] and [''] are falsy. *)
Definition or_default (x : option str) (default : str) : str :=
  match x with
  | Some (c :: s) => c :: s
  | _ => default
  end.

(** ** Built-in operations on [bytes] and [str] *)

(** [bytes.split()]: split on runs of ASCII whitespace, no empty tokens. *)
Definition is_space_byte (x : byte) : bool :=
  let n := Byte.to_N x in (n =? 32) || ((9 <=? n) && (n <=? 13)).

Fixpoint bytes_split_from (tok : bytes) (s : bytes) : list bytes :=
  match s with
  | [] => match tok with [] => [] | _ => [tok] end
  | c :: s' =>
      if is_space_byte c
      then match tok with
           | [] => bytes_split_from [] s'
           | _ => tok :: bytes_split_from [] s'
           end
      else bytes_split_from (tok ++ [c]) s'
  end.

Definition bytes_split (s : bytes) : list bytes := bytes_split_from [] s.

(** [s.split(sep)] for a one-character separator: always at least one
    piece, empty pieces kept. *)
Fixpoint str_split_from (sep : char) (tok : str) (s : str) : list str :=
  match s with
  | [] => [tok]
  | c :: s' =>
      if c =? sep
      then tok :: str_split_from sep [] s'
      else str_split_from sep (tok ++ [c]) s'
  end.

Definition str_split (sep : char) (s : str) : list str := str_split_from sep [] s.

(** [needle in s] on strings. *)
Fixpoint starts_with (needle s : str) : bool :=
  match needle, s with
  | [], _ => true
  | _ :: _, [] => false
  | x :: needle', c :: s' => (x =? c) && starts_with needle' s'
  end.

Fixpoint str_in (needle s : str) : bool :=
  starts_with needle s ||
  match s with
  | [] => false
  | _ :: s' => str_in needle s'
  end.

(** [f"{n}"] for an integer. *)
Definition str_of_Z (z : Z) : str := u (NilZero.string_of_int (Z.to_int z)).

(** ** The three standard codecs *)

Definition decode_ascii (s : bytes) : py str :=
  mapM (fun x : byte => if Byte.to_N x <? 128 then Ret (Byte.to_N x) else Raise UnicodeDecodeError) s.

Definition decode_latin_1 (s : bytes) : py str := Ret (Byte.to_N <$> s).

Definition between (lo hi x : N) : bool := (lo <=? x) && (x <=? hi).

(** Strict UTF-8, one octet at a time: shortest form only, no surrogates,
    nothing above U+10FFFF. Inside a multi-octet sequence [pending] holds
    the number of octets still to come after the next one, the bits read
    so far, and the range the next octet must lie in. *)
Fixpoint decode_utf_8_from (pending : option (nat * N * N * N)) (s : bytes) : py str :=
  match s with
  | [] =>
      match pending with
      | None => Ret []
      | Some _ => Raise UnicodeDecodeError
      end
  | x :: s' =>
      let n := Byte.to_N x in
      match pending with
      | None =>
          if n <? 128 then
            rest ← decode_utf_8_from None s'; Ret (n :: rest)
          else if between 194 223 n then
            decode_utf_8_from (Some (0%nat, n - 192, 128, 191)) s'
          else if between 224 239 n then
            decode_utf_8_from
              (Some (1%nat, n - 224,
                     if n =? 224 then 160 else 128,
                     if n =? 237 then 159 else 191)) s'
          else if between 240 244 n then
            decode_utf_8_from
              (Some (2%nat, n - 240,
                     if n =? 240 then 144 else 128,
                     if n =? 244 then 143 else 191)) s'
          else Raise UnicodeDecodeError
      | Some (more, bits, lo, hi) =>
          if between lo hi n then
            let bits := bits * 64 + (n - 128) in
            match more with
            | O => rest ← decode_utf_8_from None s'; Ret (bits :: rest)
            | S more => decode_utf_8_from (Some (more, bits, 128, 191)) s'
            end
          else Raise UnicodeDecodeError
      end
  end.

Definition decode_utf_8 (s : bytes) : py str := decode_utf_8_from None s.

(** ** Objects of the libraries the module calls *)

(** One element of [email.header.decode_header]'s result: the text of a
    fragment is [bytes] when the header had encoded words and [str]
    otherwise. *)
Inductive fragment : Type :=
  | FBytes (s : bytes)
  | FStr (s : str).

(** The methods of one [email.message.Message] part that the module calls,
    each with its outcome. [get_payload] is [get_payload(decode=True)],
    which is [None] on a multipart container. *)
Record Part : Type := {
  get_filename : py (option str);
  get_content_type : str;
  get_content_charset : option str;
  get_payload : py (option bytes);
}.

(** A parsed message: [message['From']], [message['Subject']] (each [None]
    when the header is absent) and [list(message.walk())]. *)
Record Message : Type := {
  header_From : option str;
  header_Subject : option str;
  walk : list Part;
}.

(** [imaplib.IMAP4_SSL.uid]: [uid_search c] is the value of [uids[0]]
    after [_, uids = uid('search', None, c)], and [uid_fetch n] the value
    of [data[0][1]] after [_, data = uid('fetch', n, '(RFC822)')], [None]
    when the response carries no such item. *)
Record IMAP4_SSL : Type := {
  uid_search : str -> py (option bytes);
  uid_fetch : str -> py (option bytes);
}.

(** What the module takes from the interpreter and from third-party
    packages. The two Unicode tables are consulted for code points above
    127 only. *)
Record Libraries : Type := {
  (* int(s) on a str *)
  int_str : str -> py Z;
  (* str.isalnum() of a one-character string *)
  uni_isalnum : char -> bool;
  (* the lower-case mapping of a code point, given the text before and
     after it *)
  uni_lower : str -> char -> str -> str;
  (* codecs.lookup for names other than 'utf-8', 'ascii', 'iso-8859-1' *)
  codec_lookup : str -> option (bytes -> py str);
  (* chardet.detect(raw)['encoding'] *)
  chardet_detect : bytes -> option str;
  (* email.message_from_string *)
  message_from_string : str -> py Message;
  (* email.header.decode_header *)
  decode_header : option str -> py (list (fragment * option str));
  (* BeautifulSoup(text, 'html.parser').get_text() *)
  soup_get_text : str -> py str;
  (* re.search(pattern, text): the span of the match, if any *)
  re_search : str -> str -> py (option (nat * nat));
  (* lib_utilys.read_json on a criteria file *)
  read_json : str -> py (gmap str str);
}.

(** ** The state of a [Mailbox] *)

(** [self.uid] is [None] until set; [initialize_uid] stores an [int], a
    caller that advances the watermark from [list_uids]'s result stores a
    [str], and both uses go through [int(self.uid)]. *)
Inductive watermark : Type :=
  | WInt (z : Z)
  | WStr (s : str).

Record Mailbox : Type := {
  imap_server : option IMAP4_SSL;
  uid : option watermark;
}.

(** The arguments [invoice_cls] is called with, in order. *)
Record Invoice : Type := {
  inv_uid : str;
  inv_adress : option str;
  inv_message : option Message;
  inv_business : option str;
  inv_subject : option str;
  inv_text : option str;
  inv_pdf : option bytes;
}.

(** The arguments [idoc_cls] is called with. *)
Record IDOC : Type := {
  startseg_path : str;
  dynseg_path : str;
  endseg_path : str;
}.

(** What [should_process] returns: [False] from the left operand of
    [and], or the result of [re.search]. *)
Inductive should_result : Type :=
  | RFalse
  | RSearch (m : option (nat * nat)).

Definition truthy (r : should_result) : bool :=
  match r with
  | RSearch (Some _) => true
  | _ => false
  end.

(** The six values [configure_uid_specific_data] returns. *)
Record uid_data : Type := {
  d_message : option Message;
  d_adress : option str;
  d_business : option str;
  d_subject : option str;
  d_text : option str;
  d_pdfs : option (list (option bytes));
}.

(** ** More built-ins *)

(** [str(x)] for an optional string. *)
Definition str_of (x : option str) : str :=
  match x with
  | Some s => s
  | None => u "None"
  end.

(** [max(xs)]: [ValueError] on an empty sequence. *)
Definition py_max (xs : list Z) : py Z :=
  match xs with
  | [] => Raise ValueError
  | x :: xs' => Ret (foldl Z.max x xs')
  end.

(** The longest prefix of [s] whose characters satisfy [p], and the rest. *)
Fixpoint span (p : char -> bool) (s : str) : str * str :=
  match s with
  | [] => ([], [])
  | c :: s' =>
      if p c then let '(run, rest) := span p s' in (c :: run, rest)
      else ([], s)
  end.

Definition ascii_lower (c : char) : char :=
  if between 65 90 c then c + 32 else c.

Definition ascii_isalnum (c : char) : bool :=
  between 48 57 c || between 65 90 c || between 97 122 c.

Section Model.

Variable L : Libraries.

(** [s.decode(encoding)]; [encoding=None] is a [TypeError]. *)
Definition bytes_decode (encoding : option str) (s : bytes) : py str :=
  match encoding with
  | None => Raise TypeError
  | Some name =>
      if decide (name = u "utf-8") then decode_utf_8 s
      else if decide (name = u "ascii") then decode_ascii s
      else if decide (name = u "iso-8859-1") then decode_latin_1 s
      else match codec_lookup L name with
           | Some codec => codec s
           | None => Raise LookupError
           end
  end.

(** [s.lower()]. *)
Fixpoint lower_from (before : str) (s : str) : str :=
  match s with
  | [] => []
  | c :: s' =>
      (if c <? 128 then [ascii_lower c] else uni_lower L before c s')
      ++ lower_from (before ++ [c]) s'
  end.

Definition str_lower (s : str) : str := lower_from [] s.

(** The class [[\w\.-]] of a [str] pattern. *)
Definition is_word (c : char) : bool :=
  if c <? 128 then ascii_isalnum c || (c =? 95) else uni_isalnum L c.

Definition is_addr_char (c : char) : bool :=
  is_word c || (c =? 46) || (c =? 45).

(** [re.match(r'[\w\.-]+@[\w\.-]+', s)]: both repetitions are greedy, and
    since ['@'] is outside the class neither ever gives a character
    back. *)
Definition match_email (s : str) : option str :=
  let '(local, rest) := span is_addr_char s in
  match local, rest with
  | _ :: _, c :: rest' =>
      if c =? 64 then
        let '(domain, _) := span is_addr_char rest' in
        match domain with
        | [] => None
        | _ :: _ => Some (local ++ 64 :: domain)
        end
      else None
  | _, _ => None
  end.

(** [re.search(r'[\w\.-]+@[\w\.-]+', s)] followed by [.group(0)]: the
    match at the leftmost position that has one. *)
Fixpoint search_email (s : str) : option str :=
  match match_email s with
  | Some m => Some m
  | None =>
      match s with
      | [] => None
      | _ :: s' => search_email s'
      end
  end.

(** *** [Mailbox.extract_business_] *)
Definition extract_business_ (email_adress : str) : option str :=
  let match_ := search_email email_adress in
  let extracted_email :=
    match match_ with Some group0 => group0 | None => email_adress end in
  let email_parts := str_split 64 extracted_email in
  if decide (length email_parts = 2%nat) then
    let domain_parts := str_split 46 (default [] (email_parts !! 1%nat)) in
    if decide (1 < length domain_parts)%nat then
      let business_name := domain_parts !! 0%nat in
      business_name
    else None
  else None.

(** *** [Mailbox.extract_all_pdfs]: the [try] block, then the function.
    [None] is the value the function falls off its end with after the
    handler. *)
Definition extract_all_pdfs_try (parts : list Part) : py (list (option bytes)) :=
  parts ← filterM (fun part =>
                     filename ← get_filename part;
                     Ret (str_in (u ".pdf") (str_lower (str_of filename))))
                  parts;
  pdfs ← mapM (fun payload => get_payload payload) parts;
  Ret pdfs.

Definition extract_all_pdfs (parts : list Part) : py (option (list (option bytes))) :=
  try_except (pdfs ← extract_all_pdfs_try parts; Ret (Some pdfs))
             (fun e => Ret None).

(** *** [Mailbox.extract_text_] *)
Fixpoint concat_text (plain_text : str) (parts : list Part) : py str :=
  match parts with
  | [] => Ret plain_text
  | part :: parts' =>
      let charset := or_default (get_content_charset part) (u "utf-8") in
      payload ← get_payload part;
      match payload with
      | None => Raise AttributeError
      | Some payload =>
          text ← bytes_decode (Some charset) payload;
          concat_text (plain_text ++ text) parts'
      end
  end.

Definition extract_text_ (parts : list Part) : py (option str) :=
  try_except
    (let parts :=
       filter (fun part => get_content_type part = u "text/plain"
                           ∨ get_content_type part = u "text/html") parts in
     plain_text ← concat_text [] parts;
     plain_text ← soup_get_text L plain_text;
     Ret (Some plain_text))
    (fun e => Ret None).

(** The expression of lines 136-139 and 192-195,
    [''.join([fragment.decode(charset or 'utf-8') if isinstance(fragment,
    bytes) else fragment for fragment, charset in decoded_fragments])], in
    the scope it is evaluated in: the first argument is the enclosing
    function's [charset], which the comprehension's own target of the same
    name hides. *)
Definition join_decoded_fragments (charset : option str)
    (decoded_fragments : list (fragment * option str)) : py str :=
  pieces ← mapM (fun '(fragment, charset) =>
                   match fragment with
                   | FBytes fragment =>
                       bytes_decode (Some (or_default charset (u "utf-8"))) fragment
                   | FStr fragment => Ret fragment
                   end)
                decoded_fragments;
  Ret (concat pieces).

(** [self.imap_server.uid]: an [AttributeError] when the connection was
    never made. *)
Definition server_of (self : Mailbox) : py IMAP4_SSL :=
  match imap_server self with
  | Some server => Ret server
  | None => Raise AttributeError
  end.

(** [x[...]] and [x.split()] on a response item that may be [None]. *)
Definition subscript (x : option bytes) : py bytes :=
  match x with
  | Some raw => Ret raw
  | None => Raise TypeError
  end.

Definition split_of (x : option bytes) : py (list bytes) :=
  match x with
  | Some raw => Ret (bytes_split raw)
  | None => Raise AttributeError
  end.

(** [int(self.uid)]. *)
Definition int_uid (self : Mailbox) : py Z :=
  match uid self with
  | None => Raise TypeError
  | Some (WInt z) => Ret z
  | Some (WStr s) => int_str L s
  end.

(** *** [Mailbox.configure_uid_specific_data]: the [try] block, then the
    function. *)
Definition configure_uid_specific_data_try (self : Mailbox) (uid : str) : py uid_data :=
  server ← server_of self;
  data ← uid_fetch server uid;
  raw ← subscript data;
  let charset := chardet_detect L raw in
  raw_data ← bytes_decode charset raw;
  message ← message_from_string L raw_data;
  let adress := header_From message in
  business ← match adress with
             | Some adress => Ret (extract_business_ adress)
             | None => Raise TypeError
             end;
  decoded_fragments ← decode_header L (header_Subject message);
  subject ← join_decoded_fragments charset decoded_fragments;
  let parts := walk message in
  text ← extract_text_ parts;
  pdfs ← extract_all_pdfs parts;
  Ret {| d_message := Some message; d_adress := adress;
         d_business := business; d_subject := Some subject;
         d_text := text; d_pdfs := pdfs |}.

Definition configure_uid_specific_data (self : Mailbox) (uid : str) : py uid_data :=
  try_except
    (configure_uid_specific_data_try self uid)
    (fun e =>
     Ret {| d_message := None; d_adress := None; d_business := None;
            d_subject := None; d_text := None; d_pdfs := Some [] |}).

(** *** [Mailbox.initialize_uid]: the mailbox after the call. *)
Definition initialize_uid_try (self : Mailbox) (uid_value : Z) : py Mailbox :=
  server ← server_of self;
  uids ← uid_search server (u "ALL");
  match uids with
  | Some (_ :: _) =>
      tokens ← split_of uids;
      ids ← mapM (fun x => s ← bytes_decode (Some (u "utf-8")) x; int_str L s)
                 tokens;
      newest ← py_max ids;
      Ret {| imap_server := imap_server self;
             uid := Some (WInt (newest - 1 - uid_value)) |}
  | _ => Ret self
  end.

Definition initialize_uid (self : Mailbox) (uid_value : Z) : py Mailbox :=
  try_except (initialize_uid_try self uid_value) (fun e => Ret self).

(** *** [Mailbox.list_uids]: the [try] block, then the function. [None]
    is the value the function falls off its end with after the handler. *)
Definition list_uids_try (self : Mailbox) : py (list str) :=
  last ← int_uid self;
  let search_criteria := u "UID " ++ str_of_Z (last + 1) ++ u ":*" in
  server ← server_of self;
  uids ← uid_search server search_criteria;
  tokens ← split_of uids;
  uids ← mapM (fun x => bytes_decode (Some (u "utf-8")) x) tokens;
  uids ← filterM (fun x =>
                    n ← int_str L x;
                    last ← int_uid self;
                    Ret (last <? n)%Z)
                 uids;
  Ret uids.

Definition list_uids (self : Mailbox) : py (option (list str)) :=
  try_except (uids ← list_uids_try self; Ret (Some uids)) (fun e => Ret None).

(** *** [Mailbox.create_invoice_and_idoc]: the pairs the generator yields,
    in order. *)
Definition records_of (uid : str) (d : uid_data)
    (startseg_path dynseg_path endseg_path : str) : list (Invoice * IDOC) :=
  let record pdf :=
    ({| inv_uid := uid; inv_adress := d_adress d; inv_message := d_message d;
        inv_business := d_business d; inv_subject := d_subject d;
        inv_text := d_text d; inv_pdf := pdf |},
     {| startseg_path := startseg_path; dynseg_path := dynseg_path;
        endseg_path := endseg_path |}) in
  match d_pdfs d with
  | Some (pdf :: pdfs) => record <$> (pdf :: pdfs)
  | Some [] | None => [record None]
  end.

Definition create_invoice_and_idoc (self : Mailbox) (uids : list str)
    (startseg_path dynseg_path endseg_path : str) : py (list (Invoice * IDOC)) :=
  yielded ← mapM (fun uid =>
                    d ← configure_uid_specific_data self uid;
                    Ret (records_of uid d startseg_path dynseg_path endseg_path))
                 uids;
  Ret (concat yielded).

(** *** [Mailbox.should_process] *)
Definition should_process (crit_path : str) (invoice : Invoice) : py should_result :=
  criteria ← read_json L crit_path;
  match inv_business invoice ≫= fun business => criteria !! business with
  | None => Ret RFalse
  | Some pattern =>
      match inv_subject invoice with
      | Some subject => m ← re_search L pattern subject; Ret (RSearch m)
      | None => Raise TypeError
      end
  end.

(** *** [Mailbox.set_metadata_redis] *)
Section Metadata.

(** The Redis client: its state, and [rclient.hset(key, mapping={'business':
    business, 'subject': subject})], which leaves the state as it was when
    it raises. *)
Context {Redis : Type}.
Variable hset : Redis -> str -> option str * str -> py Redis.

(** Lines 129-139: the mapping written for one identifier. *)
Definition minimal_metadata (self : Mailbox) (uid : str) : py (option str * str) :=
  server ← server_of self;
  data ← uid_fetch server uid;
  raw ← subscript data;
  let charset := chardet_detect L raw in
  raw_data ← bytes_decode charset raw;
  message ← message_from_string L raw_data;
  let adress := header_From message in
  business ← match adress with
             | Some adress => Ret (extract_business_ adress)
             | None => Raise TypeError
             end;
  decoded_fragments ← decode_header L (header_Subject message);
  subject ← join_decoded_fragments charset decoded_fragments;
  Ret (business, subject).

(** The [for] loop inside the [try]: the client as the loop leaves it, and
    how the loop ended. *)
Fixpoint metadata_loop (self : Mailbox) (rclient : Redis) (uids : list str)
    : Redis * py unit :=
  match uids with
  | [] => (rclient, Ret tt)
  | uid :: uids' =>
      match (mapping ← minimal_metadata self uid;
             let key := uid in
             hset rclient key mapping) with
      | Ret rclient' => metadata_loop self rclient' uids'
      | Raise e => (rclient, Raise e)
      end
  end.

Definition set_metadata_redis (self : Mailbox) (rclient : Redis) (uids : list str)
    : Redis * py unit :=
  let '(rclient, outcome) := metadata_loop self rclient uids in
  (rclient, try_except outcome (fun e => Ret tt)).

End Metadata.

End Model.

(** ** The specification's wording, for comparison with the code *)

(** "local-part [@] domain, restricted to word/dot/dash characters". *)
Definition email_shaped (L : Libraries) (m : str) : Prop :=
  ∃ local domain,
    m = local ++ 64 :: domain ∧ local ≠ [] ∧ domain ≠ []
    ∧ Forall (fun c => is_addr_char L c = true) local
    ∧ Forall (fun c => is_addr_char L c = true) domain.

(** [m] is the first email-address-shaped substring of [s]: none starts
    further left, and [m] is the longest one starting where it does. *)
Definition first_email_in (L : Libraries) (s m : str) : Prop :=
  ∃ before after,
    s = before ++ m ++ after ∧ email_shaped L m
    ∧ (∀ before' m' after',
         s = before' ++ m' ++ after' → email_shaped L m' →
         (length before ≤ length before')%nat
         ∧ (length before' = length before → length m' ≤ length m)%nat).

Definition no_email_in (L : Libraries) (s : str) : Prop :=
  ∀ before m after, s = before ++ m ++ after → ¬ email_shaped L m.

(** "Splits on [@]; if exactly two parts, splits the domain on [.]; if the
    domain has more than one label, returns the first label as the
    business key. Otherwise returns null." *)
Definition extractBusiness (address : str) : option str :=
  match str_split 64 address with
  | [_; domain] =>
      match str_split 46 domain with
      | label :: _ :: _ => Some label
      | _ => None
      end
  | _ => None
  end.

(** "select those whose filename (case-insensitive) contains the substring
    [pdf]". *)
Definition filename_contains_pdf (L : Libraries) (filename : option str) : bool :=
  str_in (u "pdf") (str_lower L (str_of filename)).

(** "each fragment is decoded with its own declared charset (falling back
    to the outer detected charset, then UTF-8) and concatenated in
    order". *)
Definition join_with_outer_fallback (L : Libraries) (outer : option str)
    (decoded_fragments : list (fragment * option str)) : py str :=
  pieces ← mapM (fun '(fragment, own) =>
                   match fragment with
                   | FBytes x =>
                       bytes_decode L
                         (Some (or_default own (or_default outer (u "utf-8")))) x
                   | FStr s => Ret s
                   end)
                decoded_fragments;
  Ret (concat pieces).

(** How one fragment is turned into text by the code. *)
Definition fragment_text (L : Libraries) (f : fragment * option str) (piece : str) : Prop :=
  match f.1 with
  | FBytes x => bytes_decode L (Some (or_default f.2 (u "utf-8"))) x = Ret piece
  | FStr s => piece = s
  end.

(** The invoice built for one identifier from the decoded data and one
    attachment (or none). *)
Definition invoice_of (uid : str) (d : uid_data) (pdf : option bytes) : Invoice :=
  {| inv_uid := uid; inv_adress := d_adress d; inv_message := d_message d;
     inv_business := d_business d; inv_subject := d_subject d;
     inv_text := d_text d; inv_pdf := pdf |}.

(** The document built next to every invoice. *)
Definition idoc_of (startseg_path dynseg_path endseg_path : str) : IDOC :=
  {| startseg_path := startseg_path; dynseg_path := dynseg_path;
     endseg_path := endseg_path |}.

(** The same data with another list of attachments. *)
Definition with_pdfs (d : uid_data) (pdfs : option (list (option bytes))) : uid_data :=
  {| d_message := d_message d; d_adress := d_adress d;
     d_business := d_business d; d_subject := d_subject d;
     d_text := d_text d; d_pdfs := pdfs |}.

(** The records of one identifier, from what its decode produced. *)
Definition yielded_for (L : Libraries) (self : Mailbox)
    (startseg_path dynseg_path endseg_path : str) (uid : str) : list (Invoice * IDOC) :=
  match configure_uid_specific_data L self uid with
  | Ret d => records_of uid d startseg_path dynseg_path endseg_path
  | Raise _ => []
  end.

(** The data of a message whose decode failed. *)
Definition no_data : uid_data :=
  {| d_message := None; d_adress := None; d_business := None;
     d_subject := None; d_text := None; d_pdfs := Some [] |}.

(** ** A small mailbox to evaluate the code on *)

(** [int] on a plain ASCII decimal numeral with an optional sign, which is
    what an IMAP server sends; other texts are not needed below and are
    rejected. *)
Fixpoint digits_value (acc : Z) (s : str) : py Z :=
  match s with
  | [] => Ret acc
  | c :: s' =>
      if between 48 57 c then digits_value (acc * 10 + Z.of_N (c - 48)) s'
      else Raise ValueError
  end.

Definition int_decimal (s : str) : py Z :=
  match s with
  | [] | [45] | [43] => Raise ValueError
  | 45 :: digits => Z.opp <$> digits_value 0 digits
  | 43 :: digits => digits_value 0 digits
  | _ => digits_value 0 s
  end.

Definition text_part (body : string) : Part :=
  {| get_filename := Ret None; get_content_type := u "text/plain";
     get_content_charset := None; get_payload := Ret (Some (b body)) |}.

Definition attachment (filename payload : string) : Part :=
  {| get_filename := Ret (Some (u filename));
     get_content_type := u "application/octet-stream";
     get_content_charset := None; get_payload := Ret (Some (b payload)) |}.

(** A part whose filename parameter cannot be read. *)
Definition broken_part : Part :=
  {| get_filename := Raise LookupError;
     get_content_type := u "application/octet-stream";
     get_content_charset := None; get_payload := Ret (Some (b "%PDF")) |}.

(** The parser of the example: the raw text is the subject, and two raw
    texts stand for messages with attachments. *)
Definition example_message (raw : str) : Message :=
  {| header_From := Some (u "Billing <invoices@billing.acme.com>");
     header_Subject := Some raw;
     walk := if decide (raw = u "two pdfs")
             then [text_part "see attached"; attachment "a.pdf" "%PDF-a";
                   attachment "B.PDF" "%PDF-b"]
             else if decide (raw = u "broken part")
             then [text_part "see attached"; broken_part]
             else [text_part "nothing attached"] |}.

Definition example_libraries : Libraries :=
  {| int_str := int_decimal;
     uni_isalnum := fun _ => false;
     uni_lower := fun _ c _ => [c];
     codec_lookup := fun _ => None;
     chardet_detect := fun _ => Some (u "ascii");
     message_from_string := fun raw => Ret (example_message raw);
     decode_header := fun h =>
       match h with
       | Some s => Ret [(FStr s, None)]
       | None => Raise TypeError
       end;
     soup_get_text := fun text => Ret text;
     re_search := fun pattern text =>
       Ret (if str_in pattern text then Some (0%nat, 0%nat) else None);
     read_json := fun _ => Ret {[ u "billing" := u "Rechnung" ]} |}.

(** A server holding messages 3, 4 and 9 that answers every ranged search
    with [5 3 3], and whose message 7 cannot be fetched. *)
Definition example_server : IMAP4_SSL :=
  {| uid_search := fun criteria =>
       if decide (criteria = u "ALL") then Ret (Some (b "3 9 4"))
       else Ret (Some (b "5 3 3"));
     uid_fetch := fun uid =>
       if decide (uid = u "7") then Raise LibraryError
       else if decide (uid = u "8") then Ret (Some (b "two pdfs"))
       else if decide (uid = u "9") then Ret (Some (b "broken part"))
       else Ret (Some (b "Rechnung 42")) |}.

(** A server that refuses every search: [imaplib] hands the text of the
    refusal over in place of the identifiers. *)
Definition refusing_server : IMAP4_SSL :=
  {| uid_search := fun _ => Ret (Some (b "SEARCH not allowed now"));
     uid_fetch := fun _ => Raise LibraryError |}.

(** A server whose folder is empty. *)
Definition empty_server : IMAP4_SSL :=
  {| uid_search := fun _ => Ret (Some []);
     uid_fetch := fun _ => Ret None |}.

Definition example_mailbox (last : option watermark) : Mailbox :=
  {| imap_server := Some example_server; uid := last |}.

(** What the decode of message 9 produces: everything but the
    attachments. *)
Definition broken_part_data : uid_data :=
  {| d_message := Some (example_message (u "broken part"));
     d_adress := Some (u "Billing <invoices@billing.acme.com>");
     d_business := Some (u "billing");
     d_subject := Some (u "broken part");
     d_text := Some (u "see attached");
     d_pdfs := None |}.

(** An invoice as [should_process] reads it. *)
Definition example_invoice (business subject : string) : Invoice :=
  {| inv_uid := u "1"; inv_adress := None; inv_message := None;
     inv_business := Some (u business); inv_subject := Some (u subject);
     inv_text := None; inv_pdf := None |}.


(** A Redis client as a dictionary of hashes; as redis-py does, [hset]
    refuses a [None] field value. *)
Definition dict_hset (rclient : gmap str (str * str)) (key : str)
    (mapping : option str * str) : py (gmap str (str * str)) :=
  match mapping.1 with
  | Some business => Ret (<[key := (business, mapping.2)]> rclient)
  | None => Raise LibraryError
  end.

(** [sep.join(pieces)], the inverse of [split]. *)
Fixpoint str_join (sep : char) (pieces : list str) : str :=
  match pieces with
  | [] => []
  | [piece] => piece
  | piece :: pieces' => piece ++ sep :: str_join sep pieces'
  end.

(** The test [extract_all_pdfs] applies to a part, when its filename can be
    read. *)
Definition is_pdf_part (L : Libraries) (part : Part) : bool :=
  match get_filename part with
  | Ret filename => str_in (u ".pdf") (str_lower L (str_of filename))
  | Raise _ => false
  end.

(** [x] passes the client-side check of [list_uids] against the watermark
    [last]. *)
Definition is_new (L : Libraries) (last : Z) (x : str) : bool :=
  match int_str L x with
  | Ret n => (last <? n)%Z
  | Raise _ => false
  end.

(** The identifiers [xs] read as integers are strictly ascending. *)
Definition ascending (L : Libraries) (xs : list str) : Prop :=
  ∃ ns, mapM (int_str L) xs = Ret ns ∧ StronglySorted Z.lt ns.

(** ** The connection's lifecycle and the commands that change the folder *)

(** A method that reads and updates its object and may raise: the object
    after the call, and the outcome. *)
Definition method (S A : Type) : Type := S -> S * py A.

#[global] Instance method_ret (S : Type) : MRet (method S) :=
  fun A a self => (self, Ret a).
#[global] Instance method_bind (S : Type) : MBind (method S) :=
  fun A B f m self =>
    match m self with
    | (self', Ret a) => f a self'
    | (self', Raise e) => (self', Raise e)
    end.

(** [try: body / except Exception as e: handler] inside a method: what the
    body did to the object before it raised stays done. *)
Definition try_method {S A} (body : method S A) (handler : exn -> method S A)
    : method S A :=
  fun self =>
    match body self with
    | (self', Ret a) => (self', Ret a)
    | (self', Raise e) => handler e self'
    end.

(** An expression that may raise and leaves the object alone. *)
Definition evaluate {S A} (x : py A) : method S A := fun self => (self, x).

(** What the module uses of [imaplib] besides [uid('search')] and
    [uid('fetch')]: the constructor and the commands that change the
    connection; a command returns the connection as it leaves it, also
    when it raises. [uid_commands] is how a connection in a given state
    answers searches and fetches. *)
Record Imaplib (conn : Type) : Type := {
  IMAP4_SSL_new : option str -> Z -> py conn;
  login : option str -> option str -> conn -> conn * py unit;
  select : str -> conn -> conn * py unit;
  logout : conn -> conn * py unit;
  (* uid('STORE', uid, '+FLAGS', flags) *)
  uid_store : str -> str -> conn -> conn * py unit;
  expunge : conn -> conn * py unit;
  uid_commands : conn -> IMAP4_SSL;
}.
Arguments IMAP4_SSL_new {conn}.
Arguments login {conn}.
Arguments select {conn}.
Arguments logout {conn}.
Arguments uid_store {conn}.
Arguments expunge {conn}.
Arguments uid_commands {conn}.

(** All the attributes of a [Mailbox] object. *)
Record MailboxObject (conn : Type) : Type := {
  o_inbox : str;
  o_server : option str;
  o_port : option str;
  o_email : option str;
  o_password : option str;
  o_imap_server : option conn;
  o_uid : option watermark;
}.
Arguments o_inbox {conn}.
Arguments o_server {conn}.
Arguments o_port {conn}.
Arguments o_email {conn}.
Arguments o_password {conn}.
Arguments o_imap_server {conn}.
Arguments o_uid {conn}.

Section Lifecycle.

Context {conn : Type}.
Variable imaplib : Imaplib conn.
Variable L : Libraries.
(** [os.getenv(name)]. *)
Variable getenv : str -> option str.

(** [self.imap_server = value]. *)
Definition set_imap_server (value : option conn) : method (MailboxObject conn) unit :=
  fun self =>
    ({| o_inbox := o_inbox self; o_server := o_server self; o_port := o_port self;
        o_email := o_email self; o_password := o_password self;
        o_imap_server := value; o_uid := o_uid self |},
     Ret tt).

(** [self.imap_server.command(...)]: an [AttributeError] on [None]. *)
Definition imap_call {A} (command : conn -> conn * py A)
    : method (MailboxObject conn) A :=
  fun self =>
    match o_imap_server self with
    | None => (self, Raise AttributeError)
    | Some c =>
        let '(c', outcome) := command c in
        ((set_imap_server (Some c') self).1, outcome)
    end.

(** [int(port)] for the value of an environment variable. *)
Definition int_port (port : option str) : py Z :=
  match port with
  | Some port => int_str L port
  | None => Raise TypeError
  end.

(** *** [Mailbox._connect] *)
Definition _connect (server port email password : option str)
    : method (MailboxObject conn) unit :=
  try_method
    (port_number ← evaluate (int_port port);
     connection ← evaluate (IMAP4_SSL_new imaplib server port_number);
     set_imap_server (Some connection);;
     imap_call (login imaplib email password);;
     inbox ← (fun self => (self, Ret (o_inbox self)));
     imap_call (select imaplib inbox))
    (fun e => mret tt).

(** *** [Mailbox.__init__]: the object it leaves, and its outcome. *)
Definition __init__ (inbox : str) : MailboxObject conn * py unit :=
  let self :=
    {| o_inbox := default inbox (getenv (u "IMAP_INBOX"));
       o_server := getenv (u "IMAP_SERVER");
       o_port := getenv (u "IMAP_PORT");
       o_email := getenv (u "IMAP_EMAIL");
       o_password := getenv (u "IMAP_PASSWORD");
       o_imap_server := None;
       o_uid := None |} in
  _connect (o_server self) (o_port self) (o_email self) (o_password self) self.

(** *** [Mailbox._disconnect] *)
Definition _disconnect : method (MailboxObject conn) unit :=
  imap_call (logout imaplib).

(** *** [Mailbox.__del__] *)
Definition __del__ : method (MailboxObject conn) unit :=
  fun self =>
    match o_imap_server self with
    | Some _ => _disconnect self
    | None => (self, Ret tt)
    end.

(** *** [Mailbox.delete_email] *)
Definition delete_email (uid : str) : method (MailboxObject conn) unit :=
  try_method
    (imap_call (uid_store imaplib uid (u "(\Deleted)"));;
     imap_call (expunge imaplib))
    (fun e => mret tt).

(** *** [Mailbox.flag_email] *)
Definition flag_email (uid : str) : method (MailboxObject conn) unit :=
  try_method
    (imap_call (uid_store imaplib uid (u "(\Flagged)")))
    (fun e => mret tt).

(** The part of the object that the search, fetch and decode methods
    read. *)
Definition mailbox_of (self : MailboxObject conn) : Mailbox :=
  {| imap_server := uid_commands imaplib <$> o_imap_server self;
     uid := o_uid self |}.

End Lifecycle.

(** The character, if any, next to an address in the surrounding text
    does not belong to the class of the pattern. *)
Definition boundary (L : Libraries) (c : option char) : Prop :=
  match c with
  | None => True
  | Some c => is_addr_char L c = false
  end.

(** How one text part contributes to [extract_text_]. *)
Definition part_text (L : Libraries) (part : Part) (piece : str) : Prop :=
  ∃ payload,
    get_payload part = Ret (Some payload)
    ∧ bytes_decode L (Some (or_default (get_content_charset part) (u "utf-8")))
        payload = Ret piece.

(** The parts [extract_text_] reads. *)
Definition text_parts (parts : list Part) : list Part :=
  filter (fun part => get_content_type part = u "text/plain"
                      ∨ get_content_type part = u "text/html") parts.

(** A connection as the log of the commands it received; [login] fails
    on a wrong password and the constructor without a host. *)
Inductive command : Type :=
  | Login
  | Select (folder : str)
  | Logout
  | Store (uid flags : str)
  | Expunge.

Definition log_imaplib : Imaplib (list command) :=
  {| IMAP4_SSL_new := fun server port =>
       match server with
       | Some _ => Ret []
       | None => Raise LibraryError
       end;
     login := fun email password log =>
       if decide (password = Some (u "secret")) then (log ++ [Login], Ret tt)
       else (log, Raise LibraryError);
     select := fun folder log => (log ++ [Select folder], Ret tt);
     logout := fun log => (log ++ [Logout], Ret tt);
     uid_store := fun uid flags log => (log ++ [Store uid flags], Ret tt);
     expunge := fun log => (log ++ [Expunge], Ret tt);
     uid_commands := fun _ => example_server |}.

(** An environment with the four connection variables and no
    [IMAP_INBOX]. *)
Definition example_env (password : string) (name : str) : option str :=
  if decide (name = u "IMAP_SERVER") then Some (u "imap.example.org")
  else if decide (name = u "IMAP_PORT") then Some (u "993")
  else if decide (name = u "IMAP_EMAIL") then Some (u "invoices@billing.acme.com")
  else if decide (name = u "IMAP_PASSWORD") then Some (u password)
  else None.

(** * Properties *)

(** ** Exceptions and comprehensions *)

Lemma bind_Ret {A B} (m : py A) (f : A -> py B) (y : B) :
  m ≫= f = Ret y ↔ ∃ a, m = Ret a ∧ f a = Ret y.
Proof.
  destruct m as [a|e]; simpl; split.
  - intros H. exists a. split; [reflexivity | exact H].
  - intros (a' & Ha & H). injection Ha as ->. exact H.
  - discriminate.
  - intros (a' & Ha & _). discriminate.
Qed.

Lemma bind_Ret_l {A B} (a : A) (f : A -> py B) : Ret a ≫= f = f a.
Proof. reflexivity. Qed.

Lemma bind_Raise {A B} (m : py A) (f : A -> py B) (e : exn) :
  m = Raise e → m ≫= f = Raise e.
Proof. intros ->. reflexivity. Qed.

Ltac bind_inv H :=
  repeat match type of H with
         | _ ≫= _ = Ret _ =>
             let a := fresh "a" in
             let Ha := fresh "Ha" in
             apply bind_Ret in H; destruct H as (a & Ha & H)
         end.

Lemma try_except_returns {A} (body : py A) (handler : exn -> py A) :
  (∀ e, ∃ a, handler e = Ret a) → ∃ a, try_except body handler = Ret a.
Proof.
  intros Hh. destruct body as [a|e]; simpl; [eauto | apply Hh].
Qed.

Lemma mapM_cons {A B} (f : A -> py B) (x : A) (l : list A) :
  mapM f (x :: l) = y ← f x; k ← mapM f l; Ret (y :: k).
Proof. reflexivity. Qed.

Lemma mapM_Ret {A B} (f : A -> py B) (l : list A) (k : list B) :
  mapM f l = Ret k ↔ Forall2 (fun x y => f x = Ret y) l k.
Proof.
  revert k. induction l as [|x l IH]; intros k.
  - split.
    + intros H. injection H as <-. constructor.
    + intros H. inversion H. reflexivity.
  - rewrite mapM_cons. split.
    + intros H. bind_inv H. injection H as <-.
      constructor; [assumption | by apply IH].
    + intros H. inversion H as [|? y ? k' Hy Hk]; subst.
      rewrite Hy. simpl. apply IH in Hk. rewrite Hk. reflexivity.
Qed.

Lemma mapM_app {A B} (f : A -> py B) (l1 l2 : list A) (k1 k2 : list B) :
  mapM f l1 = Ret k1 → mapM f l2 = Ret k2 → mapM f (l1 ++ l2) = Ret (k1 ++ k2).
Proof.
  rewrite !mapM_Ret. apply Forall2_app.
Qed.

Lemma mapM_total {A B} (f : A -> py B) (l : list A) :
  (∀ x, ∃ y, f x = Ret y) → ∃ k, mapM f l = Ret k.
Proof.
  intros Hf. induction l as [|x l [k Hk]]; [by exists []|].
  destruct (Hf x) as [y Hy]. exists (y :: k).
  rewrite mapM_cons, Hy. simpl. rewrite Hk. reflexivity.
Qed.

(** A comprehension with a condition keeps exactly the elements on which
    the condition returned true, in their order. *)
Lemma filterM_Ret {A} (cond : A -> py bool) (l k : list A) :
  filterM cond l = Ret k →
  k = List.filter (fun x => match cond x with Ret keep => keep | Raise _ => false end) l.
Proof.
  revert k. induction l as [|x l IH]; intros k H; simpl in *.
  - by injection H as <-.
  - bind_inv H. injection H as <-. rewrite Ha. rewrite <- (IH _ Ha0).
    by destruct a.
Qed.

Lemma filter_sublist_of {A} (p : A -> bool) (l : list A) : sublist (List.filter p l) l.
Proof.
  induction l as [|x l IH]; simpl; [constructor|].
  destruct (p x); by constructor.
Qed.

Lemma filter_Forall {A} (p : A -> bool) (l : list A) :
  Forall (fun x => p x = true) (List.filter p l).
Proof.
  apply Forall_forall. intros x Hx. apply list_elem_of_In, filter_In in Hx. tauto.
Qed.

(** Reading a subsequence of identifiers as integers gives a subsequence
    of the integers. *)
Lemma mapM_sublist {A B} (f : A -> py B) (l l' : list A) (k : list B) :
  sublist l' l → mapM f l = Ret k → ∃ k', mapM f l' = Ret k' ∧ sublist k' k.
Proof.
  intros Hsub. revert k. induction Hsub as [|x l1 l2 _ IH|x l1 l2 _ IH]; intros k Hk.
  - exists []. split; [reflexivity | apply sublist_nil_l].
  - rewrite mapM_cons in Hk. bind_inv Hk. injection Hk as <-.
    destruct (IH _ Ha0) as (k' & Hk' & Hs). exists (a :: k'). split.
    + rewrite mapM_cons, Ha. simpl. rewrite Hk'. reflexivity.
    + by constructor.
  - rewrite mapM_cons in Hk. bind_inv Hk. injection Hk as <-.
    destruct (IH _ Ha0) as (k' & Hk' & Hs). exists k'. split; [assumption|].
    by constructor.
Qed.

Lemma StronglySorted_sublist_lt (k' k : list Z) :
  sublist k' k → StronglySorted Z.lt k → StronglySorted Z.lt k'.
Proof.
  induction 1 as [|x l1 l2 Hsub IH|x l1 l2 Hsub IH]; intros Hs.
  - constructor.
  - apply StronglySorted_inv in Hs as [Hs Hx]. constructor; [by apply IH|].
    eapply Forall_forall. intros y Hy.
    eapply Forall_forall in Hx; [exact Hx|]. by eapply elem_of_sublist.
  - apply StronglySorted_inv in Hs as [Hs _]. by apply IH.
Qed.

Lemma ascending_sublist (L : Libraries) (xs ys : list str) :
  sublist ys xs → ascending L xs → ascending L ys.
Proof.
  intros Hsub (ns & Hns & Hsorted).
  destruct (mapM_sublist _ _ _ _ Hsub Hns) as (ms & Hms & Hsub').
  exists ms. split; [assumption|]. by eapply StronglySorted_sublist_lt.
Qed.

Lemma mapM_elem_of {A B} (f : A -> py B) (l : list A) (k : list B) (x : A) :
  mapM f l = Ret k → x ∈ l → ∃ y, y ∈ k ∧ f x = Ret y.
Proof.
  revert k. induction l as [|x' l IH]; intros k Hk Hx.
  - by apply elem_of_nil in Hx.
  - rewrite mapM_cons in Hk. bind_inv Hk. injection Hk as <-.
    apply elem_of_cons in Hx as [->|Hx].
    + exists a. split; [apply list_elem_of_here | assumption].
    + destruct (IH _ Ha0 Hx) as (y & Hy & Hfx).
      exists y. split; [by apply list_elem_of_further | assumption].
Qed.

(** Identifiers that ascend as integers are pairwise distinct. *)
Lemma ascending_NoDup (L : Libraries) (xs : list str) : ascending L xs → NoDup xs.
Proof.
  intros (ns & Hns & Hsorted). revert ns Hns Hsorted.
  induction xs as [|x xs IH]; intros ns Hns Hsorted; [constructor|].
  rewrite mapM_cons in Hns. bind_inv Hns. injection Hns as <-.
  apply StronglySorted_inv in Hsorted as [Hsorted Hlt].
  constructor; [|by eapply IH].
  intros Hin. destruct (mapM_elem_of _ _ _ _ Ha0 Hin) as (n & Hn & Hx).
  rewrite Ha in Hx. injection Hx as <-.
  eapply Forall_forall in Hlt; [|exact Hn]. lia.
Qed.

(** [max] returns an element that bounds all the others. *)
Lemma foldl_max_spec (x : Z) (xs : list Z) :
  foldl Z.max x xs ∈ x :: xs ∧ Forall (fun n => (n <= foldl Z.max x xs)%Z) (x :: xs).
Proof.
  revert x. induction xs as [|y xs IH]; intros x; simpl.
  - split; [apply list_elem_of_here | constructor; [lia | constructor]].
  - destruct (IH (Z.max x y)) as [Hin Hall].
    apply Forall_cons in Hall as [Hxy Hall]. split.
    + apply elem_of_cons in Hin as [Heq|Hin].
      * rewrite Heq. destruct (Z.max_spec x y) as [[_ ->]|[_ ->]].
        -- apply list_elem_of_further, list_elem_of_here.
        -- apply list_elem_of_here.
      * by do 2 apply list_elem_of_further.
    + constructor; [lia|]. constructor; [lia | assumption].
Qed.

Lemma py_max_spec (ids : list Z) :
  ids ≠ [] →
  ∃ n_max, py_max ids = Ret n_max ∧ n_max ∈ ids ∧ Forall (fun n => (n <= n_max)%Z) ids.
Proof.
  destruct ids as [|x xs]; [congruence|]. intros _.
  exists (foldl Z.max x xs). split; [reflexivity | apply foldl_max_spec].
Qed.

(** [bytes.split()] of nothing is nothing, so a reply that lists
    identifiers is not empty. *)
Lemma bytes_split_nil : bytes_split [] = [].
Proof. reflexivity. Qed.

(** ** Watermark tracker *)

Lemma initialize_uid_returns (L : Libraries) (self : Mailbox) (offset : Z) :
  ∃ self', initialize_uid L self offset = Ret self'.
Proof. apply try_except_returns. eauto. Qed.

(** C3. [initialize_uid(offset)] on a mailbox whose server lists at least
    one identifier stores the largest listed identifier minus one minus
    [offset] as an [int] watermark; when the server lists none (an empty
    reply, or no reply item at all), the mailbox is left as it was, so an
    unset watermark stays unset. *)
Theorem initialize_uid_watermark (L : Libraries) (self : Mailbox) (offset : Z) :
  (∀ server reply ids,
     imap_server self = Some server →
     uid_search server (u "ALL") = Ret (Some reply) →
     mapM (fun x => s ← bytes_decode L (Some (u "utf-8")) x; int_str L s)
          (bytes_split reply) = Ret ids →
     ids ≠ [] →
     ∃ n_max,
       n_max ∈ ids ∧ Forall (fun n => (n <= n_max)%Z) ids
       ∧ initialize_uid L self offset
         = Ret {| imap_server := imap_server self;
                  uid := Some (WInt (n_max - 1 - offset)) |})
  ∧ (∀ server,
       imap_server self = Some server →
       uid_search server (u "ALL") = Ret (Some [])
       ∨ uid_search server (u "ALL") = Ret None →
       initialize_uid L self offset = Ret self
       ∧ (uid self = None → uid <$> initialize_uid L self offset = Ret None)).
Proof.
  split.
  - intros server reply ids Hserver Hsearch Hids Hne.
    destruct (py_max_spec ids Hne) as (n_max & Hmax & Hin & Hall).
    exists n_max. split; [assumption|]. split; [assumption|].
    unfold initialize_uid, initialize_uid_try, server_of.
    rewrite Hserver, bind_Ret_l, Hsearch, bind_Ret_l.
    destruct reply as [|c reply].
    + rewrite bytes_split_nil in Hids. injection Hids as <-. congruence.
    + unfold split_of. rewrite bind_Ret_l, Hids, bind_Ret_l, Hmax. reflexivity.
  - intros server Hserver Hsearch.
    assert (initialize_uid L self offset = Ret self) as Hsame.
    { unfold initialize_uid, initialize_uid_try, server_of.
      rewrite Hserver. simpl. destruct Hsearch as [-> | ->]; reflexivity. }
    split; [assumption|]. intros Hunset. rewrite Hsame. simpl. by rewrite Hunset.
Qed.

Lemma list_uids_returns (L : Libraries) (self : Mailbox) :
  ∃ r, list_uids L self = Ret r.
Proof. apply try_except_returns. eauto. Qed.

Lemma list_uids_except (L : Libraries) (self : Mailbox) (e : exn) :
  list_uids_try L self = Raise e → list_uids L self = Ret None.
Proof. unfold list_uids. intros ->. reflexivity. Qed.

Lemma list_uids_Some (L : Libraries) (self : Mailbox) (uids : list str) :
  list_uids L self = Ret (Some uids) ↔ list_uids_try L self = Ret uids.
Proof.
  unfold list_uids. destruct (list_uids_try L self) as [k|e]; simpl.
  - split; intros H; by simplify_eq.
  - split; discriminate.
Qed.

(** C2, as the code has it. After a successful [list_uids] with a set
    watermark, every returned identifier is strictly greater than the
    watermark, and the returned sequence is the subsequence of the
    server's reply that passes the check, in the server's order: it is
    ascending (hence free of duplicates) whenever the reply is. *)
Theorem list_uids_above_watermark (L : Libraries) (self : Mailbox) (uids : list str) :
  list_uids L self = Ret (Some uids) →
  ∃ last,
    int_uid L self = Ret last
    ∧ Forall (fun x => ∃ n, int_str L x = Ret n ∧ (last < n)%Z) uids
    ∧ ∃ server reply all_uids,
        imap_server self = Some server
        ∧ uid_search server (u "UID " ++ str_of_Z (last + 1) ++ u ":*")
          = Ret (Some reply)
        ∧ mapM (bytes_decode L (Some (u "utf-8"))) (bytes_split reply) = Ret all_uids
        ∧ uids = List.filter (is_new L last) all_uids
        ∧ (ascending L all_uids → ascending L uids ∧ NoDup uids).
Proof.
  intros H. apply list_uids_Some in H. unfold list_uids_try in H.
  apply bind_Ret in H as (last & Hlast & H).
  apply bind_Ret in H as (server & Hserver & H).
  apply bind_Ret in H as (uids0 & Hsearch & H).
  apply bind_Ret in H as (tokens & Htokens & H).
  apply bind_Ret in H as (all_uids & Hall & H).
  apply bind_Ret in H as (kept & Hkept & H).
  injection H as <-.
  apply filterM_Ret in Hkept.
  assert (kept = List.filter (is_new L last) all_uids) as Hfilter.
  { rewrite Hkept. apply List.filter_ext. intros x. unfold is_new.
    destruct (int_str L x) as [n|]; simpl; [|reflexivity].
    rewrite Hlast. reflexivity. }
  clear Hkept.
  unfold server_of in Hserver. destruct (imap_server self) as [srv|] eqn:Hsrv;
    [injection Hserver as ->|discriminate].
  unfold split_of in Htokens. destruct uids0 as [reply|]; [|discriminate].
  injection Htokens as <-.
  exists last. split; [assumption|]. split.
  - rewrite Hfilter. eapply Forall_impl; [apply filter_Forall|].
    intros x Hx. unfold is_new in Hx. simpl in Hx.
    destruct (int_str L x) as [n|]; [|discriminate].
    exists n. split; [reflexivity|]. by apply Z.ltb_lt.
  - exists server, reply, all_uids. repeat split; try assumption.
    + rewrite Hfilter. eapply ascending_sublist; [apply filter_sublist_of | assumption].
    + apply (ascending_NoDup L). rewrite Hfilter.
      eapply ascending_sublist; [apply filter_sublist_of | assumption].
Qed.

(** ** Business resolver: the address pattern *)

Lemma span_spec (p : char -> bool) (s run rest : str) :
  span p s = (run, rest) →
  s = run ++ rest ∧ Forall (fun c => p c = true) run
  ∧ match rest with [] => True | c :: _ => p c = false end.
Proof.
  revert run rest. induction s as [|c s IH]; intros run rest H; simpl in H.
  - injection H as <- <-. by repeat split.
  - destruct (p c) eqn:Hc.
    + destruct (span p s) as [run' rest'] eqn:Hspan. injection H as <- <-.
      destruct (IH _ _ eq_refl) as (-> & Hall & Hrest).
      repeat split; [by constructor | assumption].
    + injection H as <- <-. by repeat split.
Qed.

Lemma span_app (p : char -> bool) (run s : str) :
  Forall (fun c => p c = true) run →
  span p (run ++ s) = (run ++ (span p s).1, (span p s).2).
Proof.
  induction 1 as [|c run Hc _ IH]; simpl.
  - by destruct (span p s).
  - rewrite Hc, IH. reflexivity.
Qed.

Lemma span_stop (p : char -> bool) (c : char) (s : str) :
  p c = false → span p (c :: s) = ([], c :: s).
Proof. intros H. simpl. by rewrite H. Qed.

Lemma at_sign_outside_class (L : Libraries) : is_addr_char L 64 = false.
Proof. reflexivity. Qed.

(** Wherever an address-shaped text starts, the pattern matches there, and
    the match extends it. *)
Lemma match_email_of_shaped (L : Libraries) (m after : str) :
  email_shaped L m → ∃ extra, match_email L (m ++ after) = Some (m ++ extra).
Proof.
  intros (local & domain & -> & Hlocal & Hdomain & Hl & Hd).
  unfold match_email.
  rewrite <- app_assoc, (span_app _ _ _ Hl). simpl app at 2.
  rewrite (span_stop _ _ _ (at_sign_outside_class L)). simpl.
  rewrite app_nil_r. destruct local as [|c local]; [congruence|].
  rewrite (span_app _ _ _ Hd).
  destruct (span (is_addr_char L) after) as [extra rest]. simpl.
  destruct domain as [|d domain]; [congruence|]. simpl.
  exists extra. by rewrite <- app_assoc.
Qed.

Lemma match_email_Some (L : Libraries) (s m : str) :
  match_email L s = Some m →
  ∃ after, s = m ++ after ∧ email_shaped L m.
Proof.
  unfold match_email.
  destruct (span (is_addr_char L) s) as [local rest] eqn:Hspan.
  apply span_spec in Hspan as (-> & Hl & _).
  destruct local as [|c local]; [discriminate|].
  destruct rest as [|c' rest']; [discriminate|].
  destruct (c' =? 64) eqn:Hc'; [|discriminate]. apply N.eqb_eq in Hc' as ->.
  destruct (span (is_addr_char L) rest') as [domain rest''] eqn:Hspan'.
  apply span_spec in Hspan' as (-> & Hd & _).
  destruct domain as [|d domain]; [discriminate|].
  intros H. injection H as <-. exists rest''. split.
  - simpl. by rewrite <- app_assoc.
  - by exists (c :: local), (d :: domain).
Qed.

Lemma search_email_Some (L : Libraries) (s m : str) :
  search_email L s = Some m → first_email_in L s m.
Proof.
  revert m. induction s as [|c s IH]; intros m H; simpl in H.
  - discriminate.
  - destruct (match_email L (c :: s)) as [m0|] eqn:Hmatch.
    + injection H as ->.
      destruct (match_email_Some _ _ _ Hmatch) as (after & Hs & Hshaped).
      exists [], after. split; [exact Hs|]. split; [assumption|].
      intros before' m' after' Hs' Hshaped'. split; [simpl; lia|].
      intros Hlen. destruct before'; [|discriminate]. simpl in Hs'.
      destruct (match_email_of_shaped L m' after' Hshaped') as (extra & Hm').
      rewrite <- Hs', Hmatch in Hm'. injection Hm' as ->.
      rewrite length_app. lia.
    + destruct (IH _ H) as (before & after & -> & Hshaped & Hfirst).
      exists (c :: before), after. split; [reflexivity|]. split; [assumption|].
      intros before' m' after' Hs' Hshaped'.
      destruct before' as [|c' before'].
      * simpl in Hs'.
        destruct (match_email_of_shaped L m' after' Hshaped') as (extra & Hm').
        rewrite <- Hs', Hmatch in Hm'. discriminate.
      * injection Hs' as <- Hs'.
        destruct (Hfirst _ _ _ Hs' Hshaped') as [Hle Hmax].
        simpl. split; [lia|]. intros Hlen. apply Hmax. lia.
Qed.

Lemma search_email_None (L : Libraries) (s : str) :
  search_email L s = None → no_email_in L s.
Proof.
  induction s as [|c s IH]; intros H before m after Hs Hshaped.
  - destruct Hshaped as (local & domain & -> & _).
    destruct before, local; discriminate.
  - simpl in H. destruct (match_email L (c :: s)) as [m0|] eqn:Hmatch; [discriminate|].
    destruct before as [|c' before].
    + simpl in Hs.
      destruct (match_email_of_shaped L m after Hshaped) as (extra & Hm').
      rewrite <- Hs, Hmatch in Hm'. discriminate.
    + injection Hs as <- Hs. by eapply IH.
Qed.

(** [split] cuts at every separator and nowhere else. *)
Lemma str_split_from_spec (sep : char) (tok s : str) :
  sep ∉ tok →
  str_join sep (str_split_from sep tok s) = tok ++ s
  ∧ Forall (fun piece => sep ∉ piece) (str_split_from sep tok s)
  ∧ str_split_from sep tok s ≠ [].
Proof.
  revert tok. induction s as [|c s IH]; intros tok Htok; simpl.
  - rewrite app_nil_r. by repeat split; [constructor|].
  - destruct (c =? sep) eqn:Hc.
    + apply N.eqb_eq in Hc as ->.
      destruct (IH [] (not_elem_of_nil sep)) as (Hjoin & Hall & Hne).
      repeat split; [|by constructor|discriminate].
      destruct (str_split_from sep [] s) as [|p ps] eqn:Hsplit; [congruence|].
      change (str_join sep (tok :: p :: ps)) with (tok ++ sep :: str_join sep (p :: ps)).
      by rewrite Hjoin.
    + apply N.eqb_neq in Hc.
      destruct (IH (tok ++ [c])) as (Hjoin & Hall & Hne).
      { rewrite not_elem_of_app, not_elem_of_cons. repeat split; try assumption.
        - congruence.
        - apply not_elem_of_nil. }
      rewrite Hjoin, <- app_assoc. by repeat split.
Qed.

Lemma str_split_spec (sep : char) (s : str) :
  str_join sep (str_split sep s) = s
  ∧ Forall (fun piece => sep ∉ piece) (str_split sep s).
Proof.
  destruct (str_split_from_spec sep [] s (not_elem_of_nil sep)) as (H1 & H2 & _).
  by split.
Qed.

(** The length tests and subscripts of the code select the same label as
    the specification's case analysis. *)
Lemma extract_business_extractBusiness (L : Libraries) (email_adress : str) :
  extract_business_ L email_adress
  = extractBusiness (default email_adress (search_email L email_adress)).
Proof.
  unfold extract_business_, extractBusiness.
  destruct (search_email L email_adress) as [group0|]; simpl;
    match goal with
    | |- context [str_split 64 ?x] =>
        destruct (str_split 64 x) as [|local [|domain [|third rest]]]
    end;
    simpl; try reflexivity;
    destruct (str_split 46 domain) as [|label [|second labels]];
    reflexivity.
Qed.

(** C8. [extract_business_] takes the first address-shaped substring of
    its input (the whole input if there is none), splits it on ["@"], and
    when that gives exactly two parts and the second split on ["."] has
    more than one label returns the first label, otherwise [None]. *)
Theorem extract_business_spec (L : Libraries) (email_adress : str) :
  match search_email L email_adress with
  | Some m => first_email_in L email_adress m
  | None => no_email_in L email_adress
  end
  ∧ extract_business_ L email_adress
    = extractBusiness (default email_adress (search_email L email_adress))
  ∧ extract_business_ L (u "invoices@billing.acme.com") = Some (u "billing")
  ∧ extract_business_ L (u "no-domain-struct") = None
  ∧ extract_business_ L (u "a@b") = None.
Proof.
  split; [|split; [apply extract_business_extractBusiness|]].
  - destruct (search_email L email_adress) as [m|] eqn:Hsearch.
    + by apply search_email_Some.
    + by apply search_email_None.
  - repeat split; reflexivity.
Qed.

(** ** Message decoder: attachments and subject *)

Lemma filterM_total {A} (cond : A -> py bool) (l : list A) :
  Forall (fun x => ∃ keep, cond x = Ret keep) l → ∃ k, filterM cond l = Ret k.
Proof.
  induction 1 as [|x l [keep Hx] _ [k Hk]]; [by exists []|].
  simpl. rewrite Hx, bind_Ret_l, Hk, bind_Ret_l. eauto.
Qed.

Lemma filterM_Ret_all {A} (cond : A -> py bool) (l k : list A) :
  filterM cond l = Ret k → Forall (fun x => ∃ keep, cond x = Ret keep) l.
Proof.
  revert k. induction l as [|x l IH]; intros k H; [constructor|].
  simpl in H. bind_inv H. constructor; [eauto | by eapply IH].
Qed.

Lemma extract_all_pdfs_returns (L : Libraries) (parts : list Part) :
  ∃ pdfs, extract_all_pdfs L parts = Ret pdfs.
Proof. apply try_except_returns. eauto. Qed.

Lemma extract_all_pdfs_except (L : Libraries) (parts : list Part) (e : exn) :
  extract_all_pdfs_try L parts = Raise e → extract_all_pdfs L parts = Ret None.
Proof. unfold extract_all_pdfs. intros ->. reflexivity. Qed.

Lemma extract_all_pdfs_try_Ret (L : Libraries) (parts : list Part)
    (pdfs : list (option bytes)) :
  extract_all_pdfs_try L parts = Ret pdfs
  ↔ Forall (fun part => ∃ filename, get_filename part = Ret filename) parts
    ∧ mapM get_payload (List.filter (is_pdf_part L) parts) = Ret pdfs.
Proof.
  unfold extract_all_pdfs_try.
  set (cond := fun part : Part =>
                 filename ← get_filename part;
                 Ret (str_in (u ".pdf") (str_lower L (str_of filename)))).
  assert (∀ part, match cond part with Ret keep => keep | Raise _ => false end
                  = is_pdf_part L part) as Hcond.
  { intros part. unfold cond, is_pdf_part. by destruct (get_filename part). }
  assert (∀ part, (∃ keep, cond part = Ret keep)
                  ↔ ∃ filename, get_filename part = Ret filename) as Hdefined.
  { intros part. unfold cond. destruct (get_filename part) as [filename|e]; simpl.
    - split; eauto.
    - split; intros [? ?]; discriminate. }
  split.
  - intros H. apply bind_Ret in H as (chosen & Hchosen & H).
    apply bind_Ret in H as (pdfs' & Hpdfs & H). injection H as <-.
    split.
    + eapply Forall_impl; [by eapply filterM_Ret_all|].
      intros part. apply Hdefined.
    + apply filterM_Ret in Hchosen.
      rewrite (List.filter_ext _ _ Hcond) in Hchosen. by rewrite <- Hchosen.
  - intros [Hnames Hpdfs].
    destruct (filterM_total cond parts) as [chosen Hchosen].
    { eapply Forall_impl; [exact Hnames|]. intros part. apply Hdefined. }
    rewrite Hchosen, bind_Ret_l.
    apply filterM_Ret in Hchosen.
    rewrite (List.filter_ext _ _ Hcond) in Hchosen. rewrite Hchosen.
    apply bind_Ret. exists pdfs. split; [exact Hpdfs | reflexivity].
Qed.

(** C4, as the code has it. [extract_all_pdfs] selects exactly the parts
    whose filename, lower-cased, contains [".pdf"] (with the dot: a part
    named ["Invoice.PDF"] is selected, one named ["pdfinvoice.txt"] or
    without a filename is not) and returns their decoded payloads in part
    order. *)
Theorem extract_all_pdfs_dot_pdf (L : Libraries) (parts : list Part) :
  (∀ pdfs,
     extract_all_pdfs L parts = Ret (Some pdfs)
     ↔ Forall (fun part => ∃ filename, get_filename part = Ret filename) parts
       ∧ mapM get_payload (List.filter (is_pdf_part L) parts) = Ret pdfs)
  ∧ (∀ part filename,
       get_filename part = Ret filename →
       is_pdf_part L part = str_in (u ".pdf") (str_lower L (str_of filename)))
  ∧ str_in (u ".pdf") (str_lower L (u "Invoice.PDF")) = true
  ∧ str_in (u ".pdf") (str_lower L (u "pdfinvoice.txt")) = false
  ∧ str_in (u ".pdf") (str_lower L (str_of None)) = false.
Proof.
  split; [|split; [|by repeat split]].
  - intros pdfs. rewrite <- extract_all_pdfs_try_Ret. unfold extract_all_pdfs.
    destruct (extract_all_pdfs_try L parts) as [pdfs'|e]; simpl.
    + split; intros H; by simplify_eq.
    + split; discriminate.
  - intros part filename H. unfold is_pdf_part. by rewrite H.
Qed.

Lemma join_decoded_fragments_Ret (L : Libraries) (outer : option str)
    (decoded_fragments : list (fragment * option str)) (subject : str) :
  join_decoded_fragments L outer decoded_fragments = Ret subject
  ↔ ∃ pieces, Forall2 (fragment_text L) decoded_fragments pieces
              ∧ subject = concat pieces.
Proof.
  unfold join_decoded_fragments. rewrite bind_Ret. split.
  - intros (pieces & Hpieces & H). injection H as <-.
    exists pieces. split; [|reflexivity].
    apply mapM_Ret in Hpieces. eapply Forall2_impl; [exact Hpieces|].
    intros [[x|s] own] piece; unfold fragment_text; simpl; congruence.
  - intros (pieces & Hpieces & ->). exists pieces. split; [|reflexivity].
    apply mapM_Ret. eapply Forall2_impl; [exact Hpieces|].
    intros [[x|s] own] piece; unfold fragment_text; simpl; congruence.
Qed.

(** C5, as the code has it. Each [bytes] fragment of the Subject header is
    decoded with its own declared charset, or with UTF-8 when it declares
    none; the charset detected for the whole message plays no part. The
    pieces are concatenated in order; [(b"Rechnu", "iso-8859-1")] followed
    by [(b"ng #42", "ascii")] gives ["Rechnung #42"]. *)
Theorem join_decoded_fragments_own_charset (L : Libraries) (outer : option str)
    (decoded_fragments : list (fragment * option str)) :
  (∀ subject,
     join_decoded_fragments L outer decoded_fragments = Ret subject
     ↔ ∃ pieces, Forall2 (fragment_text L) decoded_fragments pieces
                 ∧ subject = concat pieces)
  ∧ (∀ outer',
       join_decoded_fragments L outer' decoded_fragments
       = join_decoded_fragments L outer decoded_fragments)
  ∧ join_decoded_fragments L outer
      [(FBytes (b "Rechnu"), Some (u "iso-8859-1"));
       (FBytes (b "ng #42"), Some (u "ascii"))]
    = Ret (u "Rechnung #42").
Proof.
  split; [|split].
  - intros subject. apply join_decoded_fragments_Ret.
  - reflexivity.
  - reflexivity.
Qed.

(** ** Business resolver: routing *)

(** C9. [should_process] returns a truthy value exactly when the invoice's
    business key is a key of the criteria and [re.search] of the pattern
    stored under it finds a match in the invoice's subject; for a business
    key that the criteria do not list (or no business key at all) it
    returns [False] without searching. *)
Theorem should_process_iff (L : Libraries) (crit_path : str) (invoice : Invoice)
    (criteria : gmap str str) :
  read_json L crit_path = Ret criteria →
  ((∃ r, should_process L crit_path invoice = Ret r ∧ truthy r = true)
   ↔ ∃ business pattern subject m,
       inv_business invoice = Some business
       ∧ criteria !! business = Some pattern
       ∧ inv_subject invoice = Some subject
       ∧ re_search L pattern subject = Ret (Some m))
  ∧ ((∀ business, inv_business invoice = Some business → criteria !! business = None)
     → should_process L crit_path invoice = Ret RFalse).
Proof.
  intros Hjson. unfold should_process. rewrite Hjson, bind_Ret_l. split.
  - split.
    + intros (r & Hr & Htruthy).
      destruct (inv_business invoice) as [business|]; simpl in Hr;
        [|injection Hr as <-; discriminate].
      destruct (criteria !! business) as [pattern|] eqn:Hpattern;
        [|injection Hr as <-; discriminate].
      destruct (inv_subject invoice) as [subject|]; [|discriminate].
      apply bind_Ret in Hr as (m & Hm & Hr). injection Hr as <-.
      destruct m as [m|]; [|discriminate].
      by exists business, pattern, subject, m.
    + intros (business & pattern & subject & m & -> & Hpattern & -> & Hm).
      simpl. rewrite Hpattern, Hm. by exists (RSearch (Some m)).
  - intros Hunknown. destruct (inv_business invoice) as [business|]; simpl;
      [|reflexivity].
    by rewrite (Hunknown business eq_refl).
Qed.

(** ** Sync pipeline *)

Lemma configure_uid_specific_data_returns (L : Libraries) (self : Mailbox) (uid : str) :
  ∃ d, configure_uid_specific_data L self uid = Ret d.
Proof. apply try_except_returns. eauto. Qed.

Lemma configure_uid_specific_data_Ret (L : Libraries) (self : Mailbox) (uid : str)
    (d : uid_data) :
  configure_uid_specific_data_try L self uid = Ret d →
  configure_uid_specific_data L self uid = Ret d.
Proof. unfold configure_uid_specific_data. intros ->. reflexivity. Qed.

Lemma configure_uid_specific_data_except (L : Libraries) (self : Mailbox) (uid : str)
    (e : exn) :
  configure_uid_specific_data_try L self uid = Raise e →
  configure_uid_specific_data L self uid = Ret no_data.
Proof. unfold configure_uid_specific_data. intros ->. reflexivity. Qed.

(** What a successful decode hands over: the parsed message and the outcome
    of the attachment extraction on its parts. *)
Lemma configure_uid_specific_data_try_pdfs (L : Libraries) (self : Mailbox) (uid : str)
    (d : uid_data) :
  configure_uid_specific_data_try L self uid = Ret d →
  ∃ message, d_message d = Some message
             ∧ extract_all_pdfs L (walk message) = Ret (d_pdfs d).
Proof.
  unfold configure_uid_specific_data_try. intros H.
  apply bind_Ret in H as (server & _ & H).
  apply bind_Ret in H as (data & _ & H).
  apply bind_Ret in H as (raw & _ & H).
  apply bind_Ret in H as (raw_data & _ & H).
  apply bind_Ret in H as (message & _ & H).
  apply bind_Ret in H as (business & _ & H).
  apply bind_Ret in H as (decoded_fragments & _ & H).
  apply bind_Ret in H as (subject & _ & H).
  apply bind_Ret in H as (text & _ & H).
  apply bind_Ret in H as (pdfs & Hpdfs & H).
  injection H as <-. exists message. by split.
Qed.

Lemma create_invoice_and_idoc_concat (L : Libraries) (self : Mailbox) (uids : list str)
    (startseg_path dynseg_path endseg_path : str) :
  create_invoice_and_idoc L self uids startseg_path dynseg_path endseg_path
  = Ret (concat (yielded_for L self startseg_path dynseg_path endseg_path <$> uids)).
Proof.
  unfold create_invoice_and_idoc.
  match goal with |- mapM ?f uids ≫= _ = _ =>
    assert (mapM f uids
            = Ret (yielded_for L self startseg_path dynseg_path endseg_path <$> uids))
      as ->; [|reflexivity]
  end.
  apply mapM_Ret. apply Forall2_fmap_r, Forall_Forall2_diag, Forall_forall.
  intros uid _. simpl.
  destruct (configure_uid_specific_data_returns L self uid) as [d Hd].
  unfold yielded_for. rewrite Hd. reflexivity.
Qed.

Lemma create_invoice_and_idoc_app (L : Libraries) (self : Mailbox) (uids1 uids2 : list str)
    (startseg_path dynseg_path endseg_path : str) (records1 records2 : list (Invoice * IDOC)) :
  create_invoice_and_idoc L self uids1 startseg_path dynseg_path endseg_path = Ret records1 →
  create_invoice_and_idoc L self uids2 startseg_path dynseg_path endseg_path = Ret records2 →
  create_invoice_and_idoc L self (uids1 ++ uids2) startseg_path dynseg_path endseg_path
  = Ret (records1 ++ records2).
Proof.
  rewrite !create_invoice_and_idoc_concat. intros H1 H2.
  injection H1 as <-. injection H2 as <-.
  by rewrite fmap_app, concat_app.
Qed.

(** C1, as the code has it. [create_invoice_and_idoc] never raises and
    yields, identifier by identifier in the order given: for a message that
    decodes with N >= 1 PDF attachments, N records sharing the message's
    data and carrying the attachments in order; for a message that decodes
    with no PDF attachment, one record with no attachment; and for an
    identifier whose decode fails, one record in which the message data
    and the attachment are all [None]. *)
Theorem create_invoice_and_idoc_records (L : Libraries) (self : Mailbox)
    (uids : list str) (startseg_path dynseg_path endseg_path : str) :
  ∃ per_uid,
    create_invoice_and_idoc L self uids startseg_path dynseg_path endseg_path
    = Ret (concat per_uid)
    ∧ Forall2
        (fun uid records =>
           let idoc := idoc_of startseg_path dynseg_path endseg_path in
           match configure_uid_specific_data_try L self uid with
           | Ret d =>
               match d_pdfs d with
               | Some (pdf :: pdfs) =>
                   records = (fun pdf => (invoice_of uid d pdf, idoc)) <$> (pdf :: pdfs)
                   ∧ length records = length (pdf :: pdfs)
                   ∧ inv_pdf ∘ fst <$> records = pdf :: pdfs
               | Some [] | None => records = [(invoice_of uid d None, idoc)]
               end
           | Raise _ => records = [(invoice_of uid no_data None, idoc)]
           end)
        uids per_uid.
Proof.
  exists (yielded_for L self startseg_path dynseg_path endseg_path <$> uids).
  split; [apply create_invoice_and_idoc_concat|].
  apply Forall2_fmap_r, Forall_Forall2_diag, Forall_forall. intros uid _.
  unfold compose. cbv beta zeta. unfold yielded_for.
  destruct (configure_uid_specific_data_try L self uid) as [d|e] eqn:Hd.
  2: { by rewrite (configure_uid_specific_data_except _ _ _ _ Hd). }
  rewrite (configure_uid_specific_data_Ret _ _ _ _ Hd).
  unfold records_of. destruct (d_pdfs d) as [[|pdf pdfs]|]; try reflexivity.
  split; [reflexivity|]. split.
  - by rewrite !length_fmap.
  - rewrite <- list_fmap_compose. simpl. f_equal.
    induction pdfs as [|p pdfs IH]; [reflexivity|]. simpl. by rewrite IH.
Qed.

(** C10. When a message decodes but the attachment extraction on its parts
    raises internally, so that [extract_all_pdfs] returns [None],
    [create_invoice_and_idoc] yields for that identifier exactly one
    record, with the message's data and no attachment: the records are
    those of the same message with an empty list of attachments. *)
Theorem extraction_failure_yields_one_record (L : Libraries) (self : Mailbox)
    (before after : list str) (uid : str) (d : uid_data) (message : Message) (e : exn)
    (startseg_path dynseg_path endseg_path : str) :
  configure_uid_specific_data_try L self uid = Ret d →
  d_message d = Some message →
  extract_all_pdfs_try L (walk message) = Raise e →
  d_pdfs d = None
  ∧ (∃ records_before records_after,
       create_invoice_and_idoc L self before startseg_path dynseg_path endseg_path
       = Ret records_before
       ∧ create_invoice_and_idoc L self after startseg_path dynseg_path endseg_path
         = Ret records_after
       ∧ create_invoice_and_idoc L self (before ++ uid :: after)
           startseg_path dynseg_path endseg_path
         = Ret (records_before
                ++ [(invoice_of uid d None,
                     idoc_of startseg_path dynseg_path endseg_path)]
                ++ records_after))
  ∧ records_of uid d startseg_path dynseg_path endseg_path
    = records_of uid (with_pdfs d (Some [])) startseg_path dynseg_path endseg_path.
Proof.
  intros Hd Hmessage Hpdfs.
  destruct (configure_uid_specific_data_try_pdfs _ _ _ _ Hd) as (message' & Hm & Hextract).
  rewrite Hmessage in Hm. injection Hm as <-.
  rewrite (extract_all_pdfs_except _ _ _ Hpdfs) in Hextract.
  injection Hextract as Hnone. symmetry in Hnone.
  split; [assumption|]. split.
  - eexists _, _. split; [apply create_invoice_and_idoc_concat|].
    split; [apply create_invoice_and_idoc_concat|].
    rewrite create_invoice_and_idoc_concat, fmap_app, concat_app, fmap_cons.
    do 3 f_equal. simpl. f_equal.
    unfold yielded_for. rewrite (configure_uid_specific_data_Ret _ _ _ _ Hd).
    unfold records_of. rewrite Hnone. reflexivity.
  - unfold records_of, with_pdfs. rewrite Hnone. reflexivity.
Qed.

(** ** Metadata cache writer *)

Section MetadataProperties.

Context (L : Libraries) {Redis : Type}.
Variable hset : Redis -> str -> option str * str -> py Redis.

Lemma set_metadata_redis_returns (self : Mailbox) (rclient : Redis) (uids : list str) :
  (set_metadata_redis L hset self rclient uids).2 = Ret tt.
Proof.
  unfold set_metadata_redis.
  destruct (metadata_loop L hset self rclient uids) as [rclient' [[]|e]]; reflexivity.
Qed.

Lemma metadata_loop_app (self : Mailbox) (rclient rclient' : Redis)
    (uids1 uids2 : list str) :
  metadata_loop L hset self rclient uids1 = (rclient', Ret tt) →
  metadata_loop L hset self rclient (uids1 ++ uids2)
  = metadata_loop L hset self rclient' uids2.
Proof.
  revert rclient. induction uids1 as [|uid uids1 IH]; intros rclient H; simpl in *.
  - by injection H as ->.
  - destruct (minimal_metadata L self uid ≫= _) as [r|e]; [by apply IH|discriminate].
Qed.

(** The first identifier whose metadata cannot be fetched, decoded or
    written ends the loop: the client keeps what was written before it, and
    nothing is written for the identifiers after it. *)
Lemma set_metadata_redis_stops (self : Mailbox) (rclient rclient' : Redis)
    (before after : list str) (uid : str) (e : exn) :
  metadata_loop L hset self rclient before = (rclient', Ret tt) →
  (mapping ← minimal_metadata L self uid; hset rclient' uid mapping) = Raise e →
  set_metadata_redis L hset self rclient (before ++ uid :: after) = (rclient', Ret tt).
Proof.
  intros Hbefore Hfail. unfold set_metadata_redis.
  rewrite (metadata_loop_app _ _ _ _ _ Hbefore). simpl. rewrite Hfail. reflexivity.
Qed.

End MetadataProperties.

(** * The code on the example mailbox *)

(** C6: the code at an unset watermark. The [try] block of [list_uids]
    raises on [int(self.uid)], the handler logs, and the call returns
    [None], which is not an empty list. *)
Theorem list_uids_unset_watermark :
  list_uids_try example_libraries (example_mailbox None) = Raise TypeError
  ∧ list_uids example_libraries (example_mailbox None) = Ret None
  ∧ list_uids example_libraries (example_mailbox None) ≠ Ret (Some []).
Proof. by repeat split. Qed.

(** C7: the code on a batch whose first identifier cannot be fetched.
    Identifier 1 alone gets its metadata written; after identifier 7, whose
    fetch fails, nothing is written for identifier 1. *)
Theorem set_metadata_redis_aborts_batch :
  (set_metadata_redis example_libraries dict_hset (example_mailbox None) ∅
     [u "1"]).1 !! u "1"
  = Some (u "billing", u "Rechnung 42")
  ∧ set_metadata_redis example_libraries dict_hset (example_mailbox None) ∅
      [u "7"; u "1"]
    = (∅, Ret tt).
Proof.
  split.
  - vm_compute. reflexivity.
  - apply (set_metadata_redis_stops example_libraries dict_hset
             (example_mailbox None) ∅ ∅ [] [u "1"] (u "7") LibraryError);
      reflexivity.
Qed.

(** C1 as stated fails: the decode of message 7 fails entirely, and one
    record is yielded for it all the same. *)
Lemma failed_decode_yields_a_record :
  configure_uid_specific_data_try example_libraries (example_mailbox None) (u "7")
  = Raise LibraryError
  ∧ create_invoice_and_idoc example_libraries (example_mailbox None) [u "7"]
      (u "start") (u "dyn") (u "end")
    = Ret [(invoice_of (u "7") no_data None, idoc_of (u "start") (u "dyn") (u "end"))]
  ∧ create_invoice_and_idoc example_libraries (example_mailbox None) [u "7"]
      (u "start") (u "dyn") (u "end")
    ≠ Ret [].
Proof. by repeat split. Qed.

(** C2 as stated fails: the reply [5 3 3] to the ranged search comes back
    as it is, neither ascending nor free of duplicates. *)
Lemma list_uids_keeps_reply_order :
  list_uids example_libraries (example_mailbox (Some (WInt 1)))
  = Ret (Some [u "5"; u "3"; u "3"])
  ∧ ¬ ascending example_libraries [u "5"; u "3"; u "3"]
  ∧ ¬ NoDup [u "5"; u "3"; u "3"].
Proof.
  split; [reflexivity|]. split.
  - intros (ns & Hns & Hsorted). injection Hns as <-.
    apply StronglySorted_inv in Hsorted as [_ Hlt].
    apply Forall_cons in Hlt as [Hlt _]. discriminate.
  - intros Hnodup. apply NoDup_cons in Hnodup as [_ Hnodup].
    apply NoDup_cons in Hnodup as [Hnotin _]. apply Hnotin, list_elem_of_here.
Qed.

(** C4 as stated fails: the name ["pdfinvoice.txt"] contains ["pdf"], and
    the part is not selected. *)
Lemma pdfinvoice_txt_not_selected :
  filename_contains_pdf example_libraries (Some (u "pdfinvoice.txt")) = true
  ∧ extract_all_pdfs example_libraries [attachment "pdfinvoice.txt" "%PDF"]
    = Ret (Some []).
Proof. by split. Qed.

(** C5 as stated fails: a fragment without a declared charset in a message
    detected as ISO-8859-1 is decoded as UTF-8, not as ISO-8859-1. *)
Lemma undeclared_charset_is_utf_8 :
  join_with_outer_fallback example_libraries (Some (u "iso-8859-1"))
    [(FBytes [xe9], None)]
  = Ret [233]
  ∧ join_decoded_fragments example_libraries (Some (u "iso-8859-1"))
      [(FBytes [xe9], None)]
    = Raise UnicodeDecodeError.
Proof. by split. Qed.

(** [initialize_uid(2)] on the example server stores 9 - 1 - 2; on the
    empty folder it leaves the mailbox alone. *)
Lemma initialize_uid_watermark_witness :
  (∃ n_max,
     n_max ∈ [3; 9; 4]%Z ∧ Forall (fun n => (n <= n_max)%Z) [3; 9; 4]%Z
     ∧ initialize_uid example_libraries (example_mailbox None) 2
       = Ret (example_mailbox (Some (WInt (n_max - 1 - 2)))))
  ∧ initialize_uid example_libraries
      {| imap_server := Some empty_server; uid := None |} 0
    = Ret {| imap_server := Some empty_server; uid := None |}.
Proof.
  split.
  - apply (proj1 (initialize_uid_watermark example_libraries (example_mailbox None) 2)
             example_server (b "3 9 4") [3; 9; 4]%Z).
    + reflexivity.
    + reflexivity.
    + reflexivity.
    + discriminate.
  - apply (proj2 (initialize_uid_watermark example_libraries
                    {| imap_server := Some empty_server; uid := None |} 0)
             empty_server).
    + reflexivity.
    + left. reflexivity.
Defined.

Lemma list_uids_above_watermark_witness :
  ∃ last,
    int_uid example_libraries (example_mailbox (Some (WStr (u "4")))) = Ret last
    ∧ Forall (fun x => ∃ n, int_decimal x = Ret n ∧ (last < n)%Z) [u "5"]
    ∧ ∃ server reply all_uids,
        Some example_server = Some server
        ∧ uid_search server (u "UID " ++ str_of_Z (last + 1) ++ u ":*")
          = Ret (Some reply)
        ∧ mapM (bytes_decode example_libraries (Some (u "utf-8"))) (bytes_split reply)
          = Ret all_uids
        ∧ [u "5"] = List.filter (is_new example_libraries last) all_uids
        ∧ (ascending example_libraries all_uids →
           ascending example_libraries [u "5"] ∧ NoDup [u "5"]).
Proof.
  apply (list_uids_above_watermark example_libraries
           (example_mailbox (Some (WStr (u "4")))) [u "5"]).
  reflexivity.
Defined.

Lemma extract_all_pdfs_dot_pdf_witness :
  extract_all_pdfs example_libraries
    [text_part "see attached"; attachment "pdfinvoice.txt" "no";
     attachment "Invoice.PDF" "%PDF-1"; attachment "scan.pdf.txt" "%PDF-2"]
  = Ret (Some [Some (b "%PDF-1"); Some (b "%PDF-2")]).
Proof.
  apply (proj1 (extract_all_pdfs_dot_pdf example_libraries _)).
  split.
  - repeat constructor; eexists; reflexivity.
  - reflexivity.
Defined.

Lemma join_decoded_fragments_own_charset_witness :
  join_decoded_fragments example_libraries (Some (u "ascii"))
    [(FStr (u "Re: "), None); (FBytes [xc3; xa9], None);
     (FBytes [xe9], Some (u "iso-8859-1"))]
  = Ret (u "Re: " ++ [233; 233]).
Proof.
  apply (proj1 (join_decoded_fragments_own_charset example_libraries
                  (Some (u "ascii")) _)).
  exists [u "Re: "; [233]; [233]]. split; [|reflexivity].
  repeat constructor.
Defined.

Lemma should_process_iff_witness :
  (∃ r,
     should_process example_libraries (u "criteria.json")
       (example_invoice "billing" "Rechnung 42") = Ret r
     ∧ truthy r = true)
  ∧ should_process example_libraries (u "criteria.json")
      (example_invoice "acme" "Rechnung 42") = Ret RFalse.
Proof.
  split.
  - apply (proj1 (should_process_iff example_libraries (u "criteria.json")
                    (example_invoice "billing" "Rechnung 42")
                    {[ u "billing" := u "Rechnung" ]} eq_refl)).
    exists (u "billing"), (u "Rechnung"), (u "Rechnung 42"), (0%nat, 0%nat).
    repeat split.
  - apply (proj2 (should_process_iff example_libraries (u "criteria.json")
                    (example_invoice "acme" "Rechnung 42")
                    {[ u "billing" := u "Rechnung" ]} eq_refl)).
    intros business Hbusiness. injection Hbusiness as <-. reflexivity.
Defined.

Lemma extraction_failure_yields_one_record_witness :
  d_pdfs broken_part_data = None
  ∧ (∃ records_before records_after,
       create_invoice_and_idoc example_libraries (example_mailbox None) [u "8"]
         (u "start") (u "dyn") (u "end")
       = Ret records_before
       ∧ create_invoice_and_idoc example_libraries (example_mailbox None) [u "1"]
           (u "start") (u "dyn") (u "end")
         = Ret records_after
       ∧ create_invoice_and_idoc example_libraries (example_mailbox None)
           ([u "8"] ++ u "9" :: [u "1"]) (u "start") (u "dyn") (u "end")
         = Ret (records_before
                ++ [(invoice_of (u "9") broken_part_data None,
                     idoc_of (u "start") (u "dyn") (u "end"))]
                ++ records_after))
  ∧ records_of (u "9") broken_part_data (u "start") (u "dyn") (u "end")
    = records_of (u "9") (with_pdfs broken_part_data (Some []))
        (u "start") (u "dyn") (u "end").
Proof.
  apply (extraction_failure_yields_one_record example_libraries (example_mailbox None)
           [u "8"] [u "1"] (u "9") broken_part_data
           (example_message (u "broken part")) LookupError);
    reflexivity.
Defined.

(** * Further properties of the module *)

(** ** Comprehensions that raise *)

Lemma filterM_ext {A} (f g : A -> py bool) (l : list A) :
  (∀ x, f x = g x) → filterM f l = filterM g l.
Proof.
  intros Hfg. induction l as [|x l IH]; [reflexivity|].
  simpl. by rewrite Hfg, IH.
Qed.

Lemma filterM_Ret_intro {A} (cond : A -> py bool) (l : list A) :
  Forall (fun x => ∃ keep, cond x = Ret keep) l →
  filterM cond l
  = Ret (List.filter (fun x => match cond x with Ret keep => keep | Raise _ => false end) l).
Proof.
  intros Hall. destruct (filterM_total cond l Hall) as [k Hk].
  rewrite Hk. f_equal. by apply filterM_Ret.
Qed.

Lemma mapM_Raise {A B} (f : A -> py B) (l : list A) (x : A) (e : exn) :
  x ∈ l → f x = Raise e → ∃ e', mapM f l = Raise e'.
Proof.
  intros Hx Hfx. induction l as [|y l IH]; [by apply elem_of_nil in Hx|].
  rewrite mapM_cons. apply elem_of_cons in Hx as [<-|Hx].
  - rewrite Hfx. by exists e.
  - destruct (f y) as [b0|e0]; [|by exists e0].
    destruct (IH Hx) as [e' ->]. by exists e'.
Qed.

Lemma filterM_Raise {A} (cond : A -> py bool) (l : list A) (x : A) (e : exn) :
  x ∈ l → cond x = Raise e → ∃ e', filterM cond l = Raise e'.
Proof.
  intros Hx Hfx. induction l as [|y l IH]; [by apply elem_of_nil in Hx|].
  simpl. apply elem_of_cons in Hx as [<-|Hx].
  - rewrite Hfx. by exists e.
  - destruct (cond y) as [b0|e0]; [|by exists e0].
    destruct (IH Hx) as [e' ->]. by exists e'.
Qed.

(** ** Watermark tracker, continued *)

(** What [list_uids] returns once the watermark reads as [last] and the
    server's reply consists of integers. *)
Lemma list_uids_filter (L : Libraries) (self : Mailbox) (server : IMAP4_SSL)
    (last : Z) (reply : bytes) (all_uids : list str) :
  int_uid L self = Ret last →
  imap_server self = Some server →
  uid_search server (u "UID " ++ str_of_Z (last + 1) ++ u ":*") = Ret (Some reply) →
  mapM (bytes_decode L (Some (u "utf-8"))) (bytes_split reply) = Ret all_uids →
  Forall (fun x => ∃ n, int_str L x = Ret n) all_uids →
  list_uids L self = Ret (Some (List.filter (is_new L last) all_uids)).
Proof.
  intros Hlast Hserver Hsearch Hdecode Hints.
  unfold list_uids, list_uids_try, server_of, split_of.
  rewrite Hlast, bind_Ret_l, Hserver, bind_Ret_l, Hsearch, !bind_Ret_l.
  change (mapM (fun x => bytes_decode L (Some (u "utf-8")) x) (bytes_split reply))
    with (mapM (bytes_decode L (Some (u "utf-8"))) (bytes_split reply)).
  rewrite Hdecode, bind_Ret_l.
  rewrite filterM_Ret_intro.
  - rewrite bind_Ret_l. simpl. do 2 f_equal. apply List.filter_ext.
    intros x. unfold is_new. by destruct (int_str L x).
  - eapply Forall_impl; [exact Hints|]. intros x [n Hn].
    rewrite Hn, !bind_Ret_l. eauto.
Qed.

(** X1. A watermark stored as the text of an integer (as a caller does who
    copies the last identifier [list_uids] returned) gives the same
    listing as the integer itself. *)
Theorem list_uids_str_watermark (L : Libraries) (server : option IMAP4_SSL)
    (s : str) (z : Z) :
  int_str L s = Ret z →
  list_uids L {| imap_server := server; uid := Some (WStr s) |}
  = list_uids L {| imap_server := server; uid := Some (WInt z) |}.
Proof.
  intros Hs. unfold list_uids, list_uids_try, int_uid. simpl.
  rewrite Hs. reflexivity.
Qed.

(** X2. After [initialize_uid(offset)] has stored a watermark, the next
    [list_uids] searches [UID (N_max - offset):*] and returns the
    identifiers of the reply that exceed [N_max - 1 - offset]: with
    offset 0 the newest message present at initialisation is listed
    again. *)
Theorem initialize_uid_then_list_uids (L : Libraries) (self : Mailbox)
    (server : IMAP4_SSL) (offset : Z) (reply : bytes) (ids : list Z) :
  imap_server self = Some server →
  uid_search server (u "ALL") = Ret (Some reply) →
  mapM (fun x => s ← bytes_decode L (Some (u "utf-8")) x; int_str L s)
       (bytes_split reply) = Ret ids →
  ids ≠ [] →
  ∃ n_max self',
    n_max ∈ ids ∧ Forall (fun n => (n <= n_max)%Z) ids
    ∧ initialize_uid L self offset = Ret self'
    ∧ ∀ reply' all_uids,
        uid_search server (u "UID " ++ str_of_Z (n_max - offset) ++ u ":*")
        = Ret (Some reply') →
        mapM (bytes_decode L (Some (u "utf-8"))) (bytes_split reply') = Ret all_uids →
        Forall (fun x => ∃ n, int_str L x = Ret n) all_uids →
        list_uids L self'
        = Ret (Some (List.filter (is_new L (n_max - 1 - offset)) all_uids))
        ∧ ∀ x, x ∈ all_uids → int_str L x = Ret n_max → (0 <= offset)%Z →
               x ∈ List.filter (is_new L (n_max - 1 - offset)) all_uids.
Proof.
  intros Hserver Hsearch Hids Hne.
  destruct (py_max_spec ids Hne) as (n_max & Hmax & Hin & Hall).
  exists n_max, {| imap_server := imap_server self;
                   uid := Some (WInt (n_max - 1 - offset)) |}.
  split; [assumption|]. split; [assumption|]. split.
  - unfold initialize_uid, initialize_uid_try, server_of.
    rewrite Hserver, bind_Ret_l, Hsearch, bind_Ret_l.
    destruct reply as [|c reply].
    + rewrite bytes_split_nil in Hids. injection Hids as <-. congruence.
    + unfold split_of. rewrite bind_Ret_l, Hids, bind_Ret_l, Hmax. reflexivity.
  - intros reply' all_uids Hsearch' Hdecode Hints. split.
    + eapply list_uids_filter; try eassumption; [reflexivity|].
      simpl. replace (n_max - 1 - offset + 1)%Z with (n_max - offset)%Z by lia.
      exact Hsearch'.
    + intros x Hx Hn Hoffset. apply list_elem_of_In, filter_In.
      split; [by apply list_elem_of_In|].
      unfold is_new. rewrite Hn. apply Z.ltb_lt. lia.
Qed.

(** X3. [initialize_uid] never raises, never touches the connection, and
    either leaves the mailbox as it was or stores an [int] watermark. *)
Theorem initialize_uid_invariant (L : Libraries) (self : Mailbox) (offset : Z) :
  ∃ self',
    initialize_uid L self offset = Ret self'
    ∧ imap_server self' = imap_server self
    ∧ (self' = self ∨ ∃ z, uid self' = Some (WInt z)).
Proof.
  unfold initialize_uid.
  destruct (initialize_uid_try L self offset) as [self'|e] eqn:Htry; simpl.
  2: { exists self. split; [reflexivity|]. split; [reflexivity|]. by left. }
  exists self'. split; [reflexivity|].
  unfold initialize_uid_try in Htry.
  apply bind_Ret in Htry as (server & _ & Htry).
  apply bind_Ret in Htry as (uids & _ & Htry).
  destruct uids as [[|c reply]|];
    try (injection Htry as <-; split; [reflexivity | by left]).
  apply bind_Ret in Htry as (tokens & _ & Htry).
  apply bind_Ret in Htry as (ids & _ & Htry).
  apply bind_Ret in Htry as (newest & _ & Htry).
  injection Htry as <-. split; [reflexivity|]. right. by eexists.
Qed.

(** X4. One token of the search reply that is not the UTF-8 text of an
    integer loses the whole listing: [list_uids] returns [None], whatever
    the other tokens are. *)
Theorem list_uids_bad_token (L : Libraries) (self : Mailbox) (server : IMAP4_SSL)
    (last : Z) (reply x : bytes) (e : exn) :
  int_uid L self = Ret last →
  imap_server self = Some server →
  uid_search server (u "UID " ++ str_of_Z (last + 1) ++ u ":*") = Ret (Some reply) →
  x ∈ bytes_split reply →
  (s ← bytes_decode L (Some (u "utf-8")) x; int_str L s) = Raise e →
  list_uids L self = Ret None.
Proof.
  intros Hlast Hserver Hsearch Hx Hbad.
  unfold list_uids, list_uids_try, server_of, split_of.
  rewrite Hlast, bind_Ret_l, Hserver, bind_Ret_l, Hsearch, !bind_Ret_l.
  destruct (mapM _ (bytes_split reply)) as [all_uids|e0] eqn:Hdecode; [|reflexivity].
  rewrite bind_Ret_l.
  destruct (mapM_elem_of _ _ _ _ Hdecode Hx) as (y & Hy & Hxy).
  rewrite Hxy, bind_Ret_l in Hbad.
  match goal with |- context [filterM ?cond all_uids] =>
    destruct (filterM_Raise cond all_uids y e Hy) as [e' ->]
  end.
  - by rewrite Hbad.
  - reflexivity.
Qed.

(** X5. One such token in the reply to the search for all messages leaves
    the mailbox, watermark included, as it was. *)
Theorem initialize_uid_bad_token (L : Libraries) (self : Mailbox) (server : IMAP4_SSL)
    (offset : Z) (reply x : bytes) (e : exn) :
  imap_server self = Some server →
  uid_search server (u "ALL") = Ret (Some reply) →
  x ∈ bytes_split reply →
  (s ← bytes_decode L (Some (u "utf-8")) x; int_str L s) = Raise e →
  initialize_uid L self offset = Ret self.
Proof.
  intros Hserver Hsearch Hx Hbad.
  unfold initialize_uid, initialize_uid_try, server_of.
  rewrite Hserver, bind_Ret_l, Hsearch, bind_Ret_l.
  destruct reply as [|c reply]; [reflexivity|].
  unfold split_of. rewrite bind_Ret_l.
  match goal with |- context [mapM ?f (bytes_split (c :: reply))] =>
    destruct (mapM_Raise f (bytes_split (c :: reply)) x e Hx Hbad) as [e' ->]
  end.
  reflexivity.
Qed.

(** X6. When every identifier of the reply is at or below the watermark
    (a server answers [n:*] with its last message when nothing is newer),
    [list_uids] returns the empty list, not [None]. *)
Theorem list_uids_nothing_new (L : Libraries) (self : Mailbox) (server : IMAP4_SSL)
    (last : Z) (reply : bytes) (all_uids : list str) (ns : list Z) :
  int_uid L self = Ret last →
  imap_server self = Some server →
  uid_search server (u "UID " ++ str_of_Z (last + 1) ++ u ":*") = Ret (Some reply) →
  mapM (bytes_decode L (Some (u "utf-8"))) (bytes_split reply) = Ret all_uids →
  mapM (int_str L) all_uids = Ret ns →
  Forall (fun n => (n <= last)%Z) ns →
  list_uids L self = Ret (Some []).
Proof.
  intros Hlast Hserver Hsearch Hdecode Hns Hold.
  rewrite (list_uids_filter L self server last reply all_uids); try assumption.
  - do 2 f_equal. apply mapM_Ret in Hns. clear - Hns Hold.
    induction Hns as [|x n xs ns' Hx _ IH]; [reflexivity|].
    apply Forall_cons in Hold as [Hn Hold]. simpl.
    unfold is_new at 1. rewrite Hx.
    destruct (Z.ltb_spec last n); [lia | by apply IH].
  - apply mapM_Ret in Hns. clear - Hns.
    induction Hns; constructor; eauto.
Qed.

(** ** Message decoder, continued *)

Lemma extract_text__returns (L : Libraries) (parts : list Part) :
  ∃ text, extract_text_ L parts = Ret text.
Proof. apply try_except_returns. eauto. Qed.

Lemma concat_text_cons (L : Libraries) (plain_text : str) (part : Part)
    (parts : list Part) :
  concat_text L plain_text (part :: parts)
  = payload ← get_payload part;
    match payload with
    | None => Raise AttributeError
    | Some payload =>
        text ← bytes_decode L
                 (Some (or_default (get_content_charset part) (u "utf-8"))) payload;
        concat_text L (plain_text ++ text) parts
    end.
Proof. reflexivity. Qed.

Lemma concat_text_Ret (L : Libraries) (plain_text : str) (parts : list Part) (text : str) :
  concat_text L plain_text parts = Ret text
  ↔ ∃ pieces, Forall2 (part_text L) parts pieces ∧ text = plain_text ++ concat pieces.
Proof.
  revert plain_text text. induction parts as [|part parts IH]; intros plain_text text.
  - simpl. split.
    + intros H. injection H as <-. exists []. split; [constructor|].
      by rewrite app_nil_r.
    + intros (pieces & Hpieces & ->). inversion Hpieces. by rewrite app_nil_r.
  - rewrite concat_text_cons. split.
    + intros H. apply bind_Ret in H as (payload & Hpayload & H).
      destruct payload as [payload|]; [|discriminate].
      apply bind_Ret in H as (piece & Hpiece & H).
      apply IH in H as (pieces & Hpieces & ->).
      exists (piece :: pieces). split.
      * constructor; [by exists payload | assumption].
      * simpl. by rewrite <- app_assoc.
    + intros (pieces & Hpieces & ->).
      inversion Hpieces as [|? piece ? pieces' (payload & Hpayload & Hpiece) Hrest];
        subst.
      rewrite Hpayload, bind_Ret_l, Hpiece, bind_Ret_l. apply IH.
      exists pieces'. split; [assumption|]. simpl. by rewrite <- app_assoc.
Qed.

(** X7. [extract_text_] never raises. It returns a text exactly when every
    part of type text/plain or text/html has a payload that decodes with
    the part's own charset (UTF-8 when it declares none); the text is then
    what the HTML reduction makes of the decoded payloads joined in part
    order, plain and HTML parts alike, and parts of other types are never
    read. In every other case it returns [None]. *)
Theorem extract_text__spec (L : Libraries) (parts : list Part) :
  (∀ text,
     extract_text_ L parts = Ret (Some text)
     ↔ ∃ pieces,
         Forall2 (part_text L) (text_parts parts) pieces
         ∧ soup_get_text L (concat pieces) = Ret text)
  ∧ ((¬ ∃ pieces text,
        Forall2 (part_text L) (text_parts parts) pieces
        ∧ soup_get_text L (concat pieces) = Ret text)
     → extract_text_ L parts = Ret None).
Proof.
  assert (∀ text,
            extract_text_ L parts = Ret (Some text)
            ↔ ∃ pieces,
                Forall2 (part_text L) (text_parts parts) pieces
                ∧ soup_get_text L (concat pieces) = Ret text) as Hiff.
  { intros text. unfold extract_text_. fold (text_parts parts).
    destruct (concat_text L [] (text_parts parts)) as [plain_text|e] eqn:Hconcat.
    - apply concat_text_Ret in Hconcat as (pieces & Hpieces & ->).
      rewrite bind_Ret_l. simpl app. split.
      + intros H. exists pieces. split; [assumption|].
        destruct (soup_get_text L (concat pieces)); simpl in H; by simplify_eq.
      + intros (pieces' & Hpieces' & Hsoup).
        assert (concat pieces' = concat pieces) as Heq.
        { assert (concat_text L [] (text_parts parts) = Ret (concat pieces')) as H1
            by (apply concat_text_Ret; eauto).
          assert (concat_text L [] (text_parts parts) = Ret (concat pieces)) as H2
            by (apply concat_text_Ret; eauto).
          congruence. }
        rewrite <- Heq, Hsoup. reflexivity.
    - simpl. split; [discriminate|].
      intros (pieces & Hpieces & _).
      assert (concat_text L [] (text_parts parts) = Ret (concat pieces)) as H1
        by (apply concat_text_Ret; eauto).
      congruence. }
  split; [exact Hiff|].
  intros Hnone. destruct (extract_text__returns L parts) as [[text|] Htext];
    [|assumption].
  exfalso. apply Hnone. apply Hiff in Htext as (pieces & ? & ?). eauto.
Qed.

(** X8. [configure_uid_specific_data] never raises and returns one of two
    shapes: the all-null tuple with an empty attachment list, after a
    failure, or a tuple whose message, address and subject are not null,
    whose business key is [extract_business_] of the From header, and
    whose text and attachments are what [extract_text_] and
    [extract_all_pdfs] return for the parts of the message. *)
Theorem configure_uid_specific_data_shape (L : Libraries) (self : Mailbox) (uid : str) :
  ∃ d,
    configure_uid_specific_data L self uid = Ret d
    ∧ (((∃ e, configure_uid_specific_data_try L self uid = Raise e) ∧ d = no_data)
       ∨ ∃ message adress subject,
           configure_uid_specific_data_try L self uid = Ret d
           ∧ d_message d = Some message
           ∧ header_From message = Some adress
           ∧ d_adress d = Some adress
           ∧ d_business d = extract_business_ L adress
           ∧ d_subject d = Some subject
           ∧ extract_text_ L (walk message) = Ret (d_text d)
           ∧ extract_all_pdfs L (walk message) = Ret (d_pdfs d)).
Proof.
  unfold configure_uid_specific_data.
  destruct (configure_uid_specific_data_try L self uid) as [d|e] eqn:Htry; simpl.
  2: { exists no_data. split; [reflexivity|]. left. eauto. }
  exists d. split; [reflexivity|]. right.
  unfold configure_uid_specific_data_try in Htry.
  apply bind_Ret in Htry as (server & _ & H).
  apply bind_Ret in H as (data & _ & H).
  apply bind_Ret in H as (raw & _ & H).
  apply bind_Ret in H as (raw_data & _ & H).
  apply bind_Ret in H as (message & _ & H).
  apply bind_Ret in H as (business & Hbusiness & H).
  apply bind_Ret in H as (decoded_fragments & _ & H).
  apply bind_Ret in H as (subject & _ & H).
  apply bind_Ret in H as (text & Htext & H).
  apply bind_Ret in H as (pdfs & Hpdfs & H).
  injection H as <-.
  destruct (header_From message) as [adress|] eqn:Hfrom; [|discriminate].
  injection Hbusiness as <-.
  exists message, adress, subject. by repeat split.
Qed.

(** X9. The light path of [set_metadata_redis] and the full decode agree:
    the metadata of an identifier can be computed exactly when its full
    decode succeeds, and business key and subject are the same on both
    paths; a failure while reading the parts never fails the decode. *)
Theorem minimal_metadata_agrees (L : Libraries) (self : Mailbox) (uid : str)
    (business : option str) (subject : str) :
  minimal_metadata L self uid = Ret (business, subject)
  ↔ ∃ d, configure_uid_specific_data_try L self uid = Ret d
         ∧ d_business d = business ∧ d_subject d = Some subject.
Proof.
  unfold minimal_metadata, configure_uid_specific_data_try.
  destruct (server_of self) as [server|e]; simpl.
  2: { split; [discriminate | intros (d & H & _); discriminate]. }
  destruct (uid_fetch server uid) as [data|e]; simpl.
  2: { split; [discriminate | intros (d & H & _); discriminate]. }
  destruct (subscript data) as [raw|e]; simpl.
  2: { split; [discriminate | intros (d & H & _); discriminate]. }
  destruct (bytes_decode L (chardet_detect L raw) raw) as [raw_data|e]; simpl.
  2: { split; [discriminate | intros (d & H & _); discriminate]. }
  destruct (message_from_string L raw_data) as [message|e]; simpl.
  2: { split; [discriminate | intros (d & H & _); discriminate]. }
  destruct (header_From message) as [adress|]; simpl.
  2: { split; [discriminate | intros (d & H & _); discriminate]. }
  destruct (decode_header L (header_Subject message)) as [decoded_fragments|e]; simpl.
  2: { split; [discriminate | intros (d & H & _); discriminate]. }
  destruct (join_decoded_fragments L (chardet_detect L raw) decoded_fragments)
    as [subject'|e]; simpl.
  2: { split; [discriminate | intros (d & H & _); discriminate]. }
  destruct (extract_text__returns L (walk message)) as [text ->].
  destruct (extract_all_pdfs_returns L (walk message)) as [pdfs ->]. simpl.
  split.
  - intros H. injection H as <- <-. eexists. by repeat split.
  - intros (d & H & <- & Hsubject). injection H as <-. simpl in Hsubject.
    by injection Hsubject as <-.
Qed.

Lemma join_decoded_fragments_app_Ret (L : Libraries) (outer : option str)
    (fragments1 fragments2 : list (fragment * option str)) (subject : str) :
  join_decoded_fragments L outer (fragments1 ++ fragments2) = Ret subject
  ↔ ∃ subject1 subject2,
      join_decoded_fragments L outer fragments1 = Ret subject1
      ∧ join_decoded_fragments L outer fragments2 = Ret subject2
      ∧ subject = subject1 ++ subject2.
Proof.
  rewrite join_decoded_fragments_Ret. split.
  - intros (pieces & Hpieces & ->).
    apply Forall2_app_inv_l in Hpieces as (pieces1 & pieces2 & H1 & H2 & ->).
    exists (concat pieces1), (concat pieces2).
    rewrite !join_decoded_fragments_Ret, concat_app. eauto 10.
  - intros (subject1 & subject2 & H1 & H2 & ->).
    apply join_decoded_fragments_Ret in H1 as (pieces1 & H1 & ->).
    apply join_decoded_fragments_Ret in H2 as (pieces2 & H2 & ->).
    exists (pieces1 ++ pieces2). split; [by apply Forall2_app|].
    by rewrite concat_app.
Qed.

(** X10. Subject decoding works fragment by fragment: the subject of two
    fragment lists one after the other is the subject of the first
    followed by the subject of the second, and it exists exactly when both
    do (so one undecodable fragment loses the whole subject); a header
    without encoded words, which [decode_header] returns as one [str]
    fragment, is its own subject. *)
Theorem join_decoded_fragments_compositional (L : Libraries) (outer : option str)
    (fragments1 fragments2 : list (fragment * option str)) :
  (∀ subject,
     join_decoded_fragments L outer (fragments1 ++ fragments2) = Ret subject
     ↔ ∃ subject1 subject2,
         join_decoded_fragments L outer fragments1 = Ret subject1
         ∧ join_decoded_fragments L outer fragments2 = Ret subject2
         ∧ subject = subject1 ++ subject2)
  ∧ (∀ header charset,
       join_decoded_fragments L outer [(FStr header, charset)] = Ret header).
Proof.
  split.
  - intros subject. apply join_decoded_fragments_app_Ret.
  - intros header charset. unfold join_decoded_fragments. simpl.
    by rewrite app_nil_r.
Qed.

(** ** Sync pipeline, continued *)



(** X12. Identifiers are processed independently of each other: the
    records of a batch are the records of its first part followed by the
    records of the rest. *)
Theorem create_invoice_and_idoc_batches (L : Libraries) (self : Mailbox)
    (uids1 uids2 : list str) (startseg_path dynseg_path endseg_path : str) :
  ∃ records1 records2,
    create_invoice_and_idoc L self uids1 startseg_path dynseg_path endseg_path
    = Ret records1
    ∧ create_invoice_and_idoc L self uids2 startseg_path dynseg_path endseg_path
      = Ret records2
    ∧ create_invoice_and_idoc L self (uids1 ++ uids2)
        startseg_path dynseg_path endseg_path
      = Ret (records1 ++ records2).
Proof.
  eexists _, _. split; [apply create_invoice_and_idoc_concat|].
  split; [apply create_invoice_and_idoc_concat|].
  by rewrite create_invoice_and_idoc_concat, fmap_app, concat_app.
Qed.


(** ** Business resolver, continued *)

(** X14. An invoice without a business key, such as the all-null record of
    a failed decode, is never processed: [should_process] returns [False]
    for it whatever the criteria and without looking at the subject. *)
Theorem should_process_no_business (L : Libraries) (crit_path : str)
    (invoice : Invoice) (criteria : gmap str str) :
  read_json L crit_path = Ret criteria →
  inv_business invoice = None →
  should_process L crit_path invoice = Ret RFalse
  ∧ ∀ uid pdf, should_process L crit_path (invoice_of uid no_data pdf) = Ret RFalse.
Proof.
  intros Hjson Hbusiness. unfold should_process. rewrite Hjson, bind_Ret_l.
  split; [by rewrite Hbusiness|]. by intros uid pdf.
Qed.


(** ** Metadata cache writer, continued *)

Section MetadataPrefix.

Context (L : Libraries) {Redis : Type}.
Variable hset : Redis -> str -> option str * str -> py Redis.



End MetadataPrefix.

(** X17. With a dictionary as the client and a batch in which every
    identifier has a business key, [set_metadata_redis] leaves under each
    identifier of the batch its business key and subject, and leaves every
    other key as it was. *)
Theorem set_metadata_redis_dict (L : Libraries) (self : Mailbox)
    (rclient : gmap str (str * str)) (uids : list str) :
  Forall (fun uid => ∃ business subject,
            minimal_metadata L self uid = Ret (Some business, subject)) uids →
  (∀ uid business subject,
     uid ∈ uids →
     minimal_metadata L self uid = Ret (Some business, subject) →
     (set_metadata_redis L dict_hset self rclient uids).1 !! uid
     = Some (business, subject))
  ∧ (∀ key, key ∉ uids →
            (set_metadata_redis L dict_hset self rclient uids).1 !! key
            = rclient !! key).
Proof.
  assert (∀ r, (set_metadata_redis L dict_hset self r uids).1
               = (metadata_loop L dict_hset self r uids).1) as Hfst.
  { intros r. unfold set_metadata_redis.
    by destruct (metadata_loop L dict_hset self r uids). }
  rewrite !Hfst. clear Hfst.
  intros Hall. revert rclient.
  induction Hall as [|uid uids (business & subject & Hmeta) _ IH]; intros rclient.
  - split; [|reflexivity]. intros uid ? ? H. by apply elem_of_nil in H.
  - simpl. rewrite Hmeta, bind_Ret_l. unfold dict_hset at 1 3. simpl.
    destruct (IH (<[uid:=(business, subject)]> rclient)) as [Hin Hout].
    split.
    + intros uid' business' subject' Huid' Hmeta'.
      destruct (decide (uid' ∈ uids)) as [Hlater|Hlater]; [by apply Hin|].
      apply elem_of_cons in Huid' as [->|?]; [|contradiction].
      rewrite (Hout _ Hlater), lookup_insert_eq. congruence.
    + intros key Hkey. apply not_elem_of_cons in Hkey as [Hne Hkey].
      rewrite (Hout _ Hkey). by apply lookup_insert_ne.
Qed.

(** ** Business resolver: what [extract_business_] returns *)

Lemma str_split_from_no_sep (sep : char) (tok s : str) :
  sep ∉ s → str_split_from sep tok s = [tok ++ s].
Proof.
  revert tok. induction s as [|c s IH]; intros tok Hs; simpl.
  - by rewrite app_nil_r.
  - apply not_elem_of_cons in Hs as [Hc Hs].
    destruct (N.eqb_spec c sep) as [->|_]; [congruence|].
    by rewrite IH, <- app_assoc.
Qed.

Lemma str_split_from_at (sep : char) (tok a rest : str) :
  sep ∉ a →
  str_split_from sep tok (a ++ sep :: rest) = (tok ++ a) :: str_split_from sep [] rest.
Proof.
  revert tok. induction a as [|c a IH]; intros tok Ha; simpl.
  - by rewrite N.eqb_refl, app_nil_r.
  - apply not_elem_of_cons in Ha as [Hc Ha].
    destruct (N.eqb_spec c sep) as [->|_]; [congruence|].
    by rewrite IH, <- app_assoc.
Qed.

Lemma addr_chars_no_at (L : Libraries) (s : str) :
  Forall (fun c => is_addr_char L c = true) s → 64 ∉ s.
Proof.
  intros Hall Hin. eapply Forall_forall in Hall; [|exact Hin].
  by rewrite at_sign_outside_class in Hall.
Qed.

Lemma email_shaped_has_at (L : Libraries) (m : str) : email_shaped L m → 64 ∈ m.
Proof.
  intros (local & domain & -> & _). apply elem_of_app. right. apply list_elem_of_here.
Qed.

(** X18. The business key [extract_business_] returns contains neither
    ["@"] nor ["."]. *)
Theorem extract_business__label (L : Libraries) (email_adress business : str) :
  extract_business_ L email_adress = Some business →
  (64 ∉ business) ∧ (46 ∉ business).
Proof.
  rewrite extract_business_extractBusiness. unfold extractBusiness.
  set (extracted := default email_adress (search_email L email_adress)).
  destruct (str_split_spec 64 extracted) as [_ Hparts].
  destruct (str_split 64 extracted) as [|local [|domain [|third rest]]];
    try discriminate.
  apply Forall_cons in Hparts as [_ Hparts]. apply Forall_cons in Hparts as [Hdomain _].
  destruct (str_split_spec 46 domain) as [Hjoin Hlabels].
  destruct (str_split 46 domain) as [|label [|second labels]]; try discriminate.
  intros H. injection H as <-.
  apply Forall_cons in Hlabels as [Hlabel _]. split; [|assumption].
  intros Hin. apply Hdomain. rewrite <- Hjoin.
  change (str_join 46 (label :: second :: labels))
    with (label ++ 46 :: str_join 46 (second :: labels)).
  apply elem_of_app. by left.
Qed.

(** X19. An input without ["@"] has no business key. *)
Theorem extract_business__no_at (L : Libraries) (email_adress : str) :
  (64 ∉ email_adress) → extract_business_ L email_adress = None.
Proof.
  intros Hat. unfold extract_business_.
  destruct (search_email L email_adress) as [m|] eqn:Hsearch.
  - apply search_email_Some in Hsearch as (before & after & -> & Hshaped & _).
    exfalso. apply Hat. apply elem_of_app. right. apply elem_of_app. left.
    by eapply email_shaped_has_at.
  - cbv zeta. unfold str_split. rewrite (str_split_from_no_sep _ _ _ Hat).
    reflexivity.
Qed.

Lemma span_within (p : char -> bool) (before t : str) :
  (∃ c, c ∈ before ∧ p c = false) →
  ∃ run c rest, span p (before ++ t) = (run, c :: rest) ∧ c ∈ before.
Proof.
  induction before as [|c0 before IH]; intros (c & Hc & Hpc).
  - by apply elem_of_nil in Hc.
  - simpl. destruct (p c0) eqn:Hc0.
    + apply elem_of_cons in Hc as [->|Hc]; [congruence|].
      destruct IH as (run & c' & rest & -> & Hc'); [eauto|].
      exists (c0 :: run), c', rest. split; [reflexivity|].
      by apply list_elem_of_further.
    + exists [], c0, (before ++ t). split; [reflexivity | apply list_elem_of_here].
Qed.

(** The pattern does not match where the run of class characters it starts
    in ends before any ["@"]. *)
Lemma match_email_within (L : Libraries) (before t : str) :
  64 ∉ before →
  (∃ c, c ∈ before ∧ is_addr_char L c = false) →
  match_email L (before ++ t) = None.
Proof.
  intros Hat Hstop. unfold match_email.
  destruct (span_within _ before t Hstop) as (run & c & rest & -> & Hc).
  destruct run as [|r run]; [reflexivity|].
  destruct (N.eqb_spec c 64) as [->|_]; [contradiction | reflexivity].
Qed.

Lemma search_email_skip (L : Libraries) (before : str) (c : char) (t : str) :
  64 ∉ before ++ [c] →
  is_addr_char L c = false →
  search_email L ((before ++ [c]) ++ t) = search_email L t.
Proof.
  intros Hat Hc. induction before as [|x before IH].
  - assert (match_email L ([c] ++ t) = None) as Hnone.
    { apply match_email_within; [assumption|].
      exists c. split; [apply list_elem_of_here | assumption]. }
    simpl in *. by rewrite Hnone.
  - assert (match_email L (((x :: before) ++ [c]) ++ t) = None) as Hnone.
    { apply match_email_within; [assumption|].
      exists c. split; [|assumption]. apply elem_of_app. right. apply list_elem_of_here. }
    simpl in Hnone, Hat. simpl. rewrite Hnone.
    apply IH. by apply not_elem_of_cons in Hat as [_ ?].
Qed.

Lemma search_email_match (L : Libraries) (s m : str) :
  match_email L s = Some m → search_email L s = Some m.
Proof.
  intros H. destruct s as [|c s]; [discriminate H|].
  change (search_email L (c :: s))
    with (match match_email L (c :: s) with
          | Some m => Some m
          | None => search_email L s
          end).
  by rewrite H.
Qed.

Lemma span_boundary (L : Libraries) (after : str) :
  boundary L (head after) → span (is_addr_char L) after = ([], after).
Proof.
  destruct after as [|c after]; [reflexivity|]. simpl. by intros ->.
Qed.

Lemma match_email_exact (L : Libraries) (local domain after : str) :
  local ≠ [] → domain ≠ [] →
  Forall (fun c => is_addr_char L c = true) local →
  Forall (fun c => is_addr_char L c = true) domain →
  boundary L (head after) →
  match_email L (local ++ 64 :: domain ++ after) = Some (local ++ 64 :: domain).
Proof.
  intros Hlocal Hdomain Hl Hd Hafter. unfold match_email.
  rewrite (span_app _ _ _ Hl), (span_stop _ _ _ (at_sign_outside_class L)).
  simpl. rewrite app_nil_r. destruct local as [|c local]; [congruence|].
  rewrite (span_app _ _ _ Hd), (span_boundary _ _ Hafter). simpl.
  rewrite app_nil_r. by destruct domain.
Qed.

(** X20. An address [local@label.rest] made of word, dot and dash
    characters, standing alone or inside other text that contains no
    ["@"] before it and does not continue it on either side (as in
    [Name <local@label.rest>]), has the business key [label], the part of
    the domain before its first dot. *)
Theorem extract_business__of_address (L : Libraries)
    (before local label rest after : str) :
  local ≠ [] →
  Forall (fun c => is_addr_char L c = true) local →
  Forall (fun c => is_addr_char L c = true) label →
  Forall (fun c => is_addr_char L c = true) rest →
  (46 ∉ label) →
  (64 ∉ before) →
  boundary L (last before) →
  boundary L (head after) →
  extract_business_ L (before ++ local ++ 64 :: (label ++ 46 :: rest) ++ after)
  = Some label.
Proof.
  intros Hlocal Hl Hlabel Hrest Hdot Hat Hbefore Hafter.
  set (domain := label ++ 46 :: rest).
  assert (Forall (fun c => is_addr_char L c = true) domain) as Hd.
  { apply Forall_app. split; [assumption|]. by constructor. }
  assert (domain ≠ []) as Hdomain by (unfold domain; by destruct label).
  assert (search_email L (before ++ local ++ 64 :: domain ++ after)
          = Some (local ++ 64 :: domain)) as Hsearch.
  { assert (search_email L (local ++ 64 :: domain ++ after)
            = Some (local ++ 64 :: domain)) as Hhere
      by (by apply search_email_match, match_email_exact).
    destruct (last before) as [c|] eqn:Hlast.
    - apply last_Some in Hlast as [before' ->].
      by rewrite search_email_skip.
    - apply last_None in Hlast as ->. exact Hhere. }
  rewrite extract_business_extractBusiness, Hsearch. simpl default.
  unfold extractBusiness, str_split.
  rewrite (str_split_from_at 64 [] local domain (addr_chars_no_at L _ Hl)).
  rewrite (str_split_from_no_sep 64 [] domain (addr_chars_no_at L _ Hd)).
  simpl app. unfold domain. rewrite (str_split_from_at 46 [] label rest Hdot).
  destruct (str_split_from_spec 46 [] rest (not_elem_of_nil 46)) as (_ & _ & Hne).
  by destruct (str_split_from 46 [] rest).
Qed.

(** ** Connection lifecycle *)

Section LifecycleProperties.

Context {conn : Type} (imaplib : Imaplib conn) (L : Libraries).

(** X21. The constructor never raises and leaves the watermark unset, so
    that [list_uids] on a fresh mailbox returns [None]. The folder is
    [IMAP_INBOX] when that variable is set and the argument otherwise. The
    connection attribute stays [None] exactly when [IMAP_PORT] does not
    read as an integer or [IMAP4_SSL] raises; when [login] or [select]
    raises, the connection object stays in place. *)
Theorem init_degrades (getenv : str -> option str) (inbox : str) :
  let self := (__init__ imaplib L getenv inbox).1 in
  (__init__ imaplib L getenv inbox).2 = Ret tt
  ∧ o_uid self = None
  ∧ o_inbox self = default inbox (getenv (u "IMAP_INBOX"))
  ∧ (o_imap_server self = None
     ↔ ∃ e, (port_number ← int_port L (getenv (u "IMAP_PORT"));
             IMAP4_SSL_new imaplib (getenv (u "IMAP_SERVER")) port_number)
            = Raise e)
  ∧ list_uids L (mailbox_of imaplib self) = Ret None.
Proof.
  cbv [__init__ _connect try_method evaluate imap_call set_imap_server
       mbind method_bind mret method_ret
       o_port o_server o_email o_password o_inbox o_imap_server o_uid].
  destruct (int_port L (getenv (u "IMAP_PORT"))) as [port_number|e]; simpl.
  2: { repeat split; try reflexivity; eauto. }
  destruct (IMAP4_SSL_new imaplib (getenv (u "IMAP_SERVER")) port_number)
    as [connection|e]; simpl.
  2: { repeat split; try reflexivity; eauto. }
  destruct (login imaplib _ _ connection) as [connection1 [[]|e]]; simpl.
  - destruct (select imaplib _ connection1) as [connection2 [[]|e]]; simpl;
      repeat split; try reflexivity; try discriminate;
      intros [e' He']; discriminate.
  - repeat split; try reflexivity; try discriminate.
    intros [e' He']; discriminate.
Qed.

(** X22. [__del__] sends no command to a mailbox that never got a
    connection, where [_disconnect] itself raises [AttributeError]; on any
    other mailbox it logs out, and an error of [logout] is not handled. *)
Theorem del_guards_disconnect (self : MailboxObject conn) :
  (o_imap_server self = None →
   __del__ imaplib self = (self, Ret tt)
   ∧ _disconnect imaplib self = (self, Raise AttributeError))
  ∧ (∀ c, o_imap_server self = Some c →
          __del__ imaplib self = _disconnect imaplib self
          ∧ o_imap_server (__del__ imaplib self).1 = Some (logout imaplib c).1
          ∧ (__del__ imaplib self).2 = (logout imaplib c).2).
Proof.
  unfold __del__, _disconnect, imap_call. split.
  - intros ->. by split.
  - intros c ->. by destruct (logout imaplib c).
Qed.

(** X23. [delete_email] never raises and changes nothing but the
    connection: without a connection it changes nothing at all; otherwise
    it sends the STORE of the [\Deleted] flag and, only when that did not
    raise, the EXPUNGE. *)
Theorem delete_email_spec (uid : str) (self : MailboxObject conn) :
  (delete_email imaplib uid self).2 = Ret tt
  ∧ o_uid (delete_email imaplib uid self).1 = o_uid self
  ∧ o_inbox (delete_email imaplib uid self).1 = o_inbox self
  ∧ (o_imap_server self = None → delete_email imaplib uid self = (self, Ret tt))
  ∧ (∀ c, o_imap_server self = Some c →
          o_imap_server (delete_email imaplib uid self).1
          = Some match uid_store imaplib uid (u "(\Deleted)") c with
                 | (c', Ret _) => (expunge imaplib c').1
                 | (c', Raise _) => c'
                 end).
Proof.
  cbv [delete_email try_method imap_call set_imap_server
       mbind method_bind mret method_ret].
  destruct (o_imap_server self) as [c|] eqn:Hc; simpl.
  2: { repeat split; intros; discriminate. }
  destruct (uid_store imaplib uid _ c) as [c1 [[]|e]] eqn:Hstore; simpl.
  - destruct (expunge imaplib c1) as [c2 [[]|e]] eqn:Hexpunge; simpl;
      repeat split; try discriminate;
      intros ? [= <-]; by rewrite Hstore, Hexpunge.
  - repeat split; try discriminate. intros ? [= <-]. by rewrite Hstore.
Qed.

(** X24. [flag_email] never raises, never expunges and changes nothing
    but the connection: it sends the STORE of the [\Flagged] flag when
    there is a connection and nothing otherwise. *)
Theorem flag_email_spec (uid : str) (self : MailboxObject conn) :
  (flag_email imaplib uid self).2 = Ret tt
  ∧ o_uid (flag_email imaplib uid self).1 = o_uid self
  ∧ o_inbox (flag_email imaplib uid self).1 = o_inbox self
  ∧ (o_imap_server self = None → flag_email imaplib uid self = (self, Ret tt))
  ∧ (∀ c, o_imap_server self = Some c →
          o_imap_server (flag_email imaplib uid self).1
          = Some (uid_store imaplib uid (u "(\Flagged)") c).1).
Proof.
  cbv [flag_email try_method imap_call set_imap_server
       mbind method_bind mret method_ret].
  destruct (o_imap_server self) as [c|] eqn:Hc; simpl.
  2: { repeat split; intros; discriminate. }
  destruct (uid_store imaplib uid _ c) as [c1 [[]|e]] eqn:Hstore; simpl;
    repeat split; try discriminate; intros ? [= <-]; by rewrite Hstore.
Qed.

End LifecycleProperties.

(** * The further properties on the example mailbox *)

Lemma list_uids_str_watermark_witness :
  list_uids example_libraries (example_mailbox (Some (WStr (u "4"))))
  = list_uids example_libraries (example_mailbox (Some (WInt 4))).
Proof.
  apply (list_uids_str_watermark example_libraries (Some example_server) (u "4") 4).
  reflexivity.
Defined.

Lemma initialize_uid_then_list_uids_witness :
  ∃ n_max self',
    n_max ∈ [3; 9; 4]%Z ∧ Forall (fun n => (n <= n_max)%Z) [3; 9; 4]%Z
    ∧ initialize_uid example_libraries (example_mailbox None) 6 = Ret self'
    ∧ ∀ reply' all_uids,
        uid_search example_server (u "UID " ++ str_of_Z (n_max - 6) ++ u ":*")
        = Ret (Some reply') →
        mapM (bytes_decode example_libraries (Some (u "utf-8"))) (bytes_split reply')
        = Ret all_uids →
        Forall (fun x => ∃ n, int_decimal x = Ret n) all_uids →
        list_uids example_libraries self'
        = Ret (Some (List.filter (is_new example_libraries (n_max - 1 - 6)) all_uids))
        ∧ ∀ x, x ∈ all_uids → int_decimal x = Ret n_max → (0 <= 6)%Z →
               x ∈ List.filter (is_new example_libraries (n_max - 1 - 6)) all_uids.
Proof.
  apply (initialize_uid_then_list_uids example_libraries (example_mailbox None)
           example_server 6 (b "3 9 4") [3; 9; 4]%Z).
  - reflexivity.
  - reflexivity.
  - reflexivity.
  - discriminate.
Defined.

Lemma list_uids_bad_token_witness :
  list_uids example_libraries
    {| imap_server := Some refusing_server; uid := Some (WInt 4) |}
  = Ret None.
Proof.
  apply (list_uids_bad_token example_libraries
           {| imap_server := Some refusing_server; uid := Some (WInt 4) |}
           refusing_server 4 (b "SEARCH not allowed now") (b "SEARCH") ValueError).
  - reflexivity.
  - reflexivity.
  - reflexivity.
  - vm_compute. apply list_elem_of_here.
  - reflexivity.
Defined.

Lemma initialize_uid_bad_token_witness :
  initialize_uid example_libraries
    {| imap_server := Some refusing_server; uid := Some (WInt 4) |} 0
  = Ret {| imap_server := Some refusing_server; uid := Some (WInt 4) |}.
Proof.
  apply (initialize_uid_bad_token example_libraries
           {| imap_server := Some refusing_server; uid := Some (WInt 4) |}
           refusing_server 0 (b "SEARCH not allowed now") (b "SEARCH") ValueError).
  - reflexivity.
  - reflexivity.
  - vm_compute. apply list_elem_of_here.
  - reflexivity.
Defined.

Lemma list_uids_nothing_new_witness :
  list_uids example_libraries (example_mailbox (Some (WInt 5))) = Ret (Some []).
Proof.
  apply (list_uids_nothing_new example_libraries (example_mailbox (Some (WInt 5)))
           example_server 5 (b "5 3 3") [u "5"; u "3"; u "3"] [5; 3; 3]%Z).
  - reflexivity.
  - reflexivity.
  - reflexivity.
  - reflexivity.
  - reflexivity.
  - repeat constructor; lia.
Defined.

Lemma extract_text__spec_witness :
  extract_text_ example_libraries
    [attachment "a.pdf" "%PDF-a"; text_part "see "; text_part "attached"]
  = Ret (Some (u "see attached")).
Proof.
  apply (proj1 (extract_text__spec example_libraries _)).
  exists [u "see "; u "attached"]. split; [|reflexivity].
  repeat constructor; eexists; split; reflexivity.
Defined.

Lemma minimal_metadata_agrees_witness :
  minimal_metadata example_libraries (example_mailbox None) (u "9")
  = Ret (Some (u "billing"), u "broken part").
Proof.
  apply (minimal_metadata_agrees example_libraries (example_mailbox None) (u "9")).
  exists broken_part_data. by repeat split.
Defined.

Lemma join_decoded_fragments_compositional_witness :
  join_decoded_fragments example_libraries None
    ([(FStr (u "Re: "), None)] ++ [(FBytes (b "Rechnung"), Some (u "ascii"))])
  = Ret (u "Re: Rechnung").
Proof.
  apply (proj1 (join_decoded_fragments_compositional example_libraries None
                  [(FStr (u "Re: "), None)]
                  [(FBytes (b "Rechnung"), Some (u "ascii"))])).
  exists (u "Re: "), (u "Rechnung"). by repeat split.
Defined.


Lemma should_process_no_business_witness :
  should_process example_libraries (u "criteria.json")
    (invoice_of (u "7") no_data None)
  = Ret RFalse.
Proof.
  apply (should_process_no_business example_libraries (u "criteria.json")
           (invoice_of (u "7") no_data None) {[ u "billing" := u "Rechnung" ]});
    reflexivity.
Defined.


Lemma set_metadata_redis_dict_witness :
  (set_metadata_redis example_libraries dict_hset (example_mailbox None) ∅
     [u "1"; u "8"]).1 !! u "8"
  = Some (u "billing", u "two pdfs")
  ∧ (set_metadata_redis example_libraries dict_hset (example_mailbox None) ∅
       [u "1"; u "8"]).1 !! u "2"
    = (∅ : gmap str (str * str)) !! u "2".
Proof.
  destruct (set_metadata_redis_dict example_libraries (example_mailbox None) ∅
              [u "1"; u "8"]) as [Hin Hout].
  - repeat constructor; eexists _, _; reflexivity.
  - split.
    + apply Hin; [|reflexivity]. apply list_elem_of_further, list_elem_of_here.
    + apply Hout. intros Hin'. by repeat (apply elem_of_cons in Hin' as [?|Hin']);
        [| |apply elem_of_nil in Hin'].
Defined.

Lemma extract_business__label_witness :
  (64 ∉ u "billing") ∧ (46 ∉ u "billing").
Proof.
  apply (extract_business__label example_libraries
           (u "Billing <invoices@billing.acme.com>") (u "billing")).
  reflexivity.
Defined.

Lemma extract_business__no_at_witness :
  extract_business_ example_libraries (u "no-domain-struct") = None.
Proof.
  apply (extract_business__no_at example_libraries (u "no-domain-struct")).
  apply (bool_decide_unpack _). vm_compute. exact I.
Defined.

Lemma extract_business__of_address_witness :
  extract_business_ example_libraries
    (u "Billing <" ++ u "invoices" ++ 64 :: (u "billing" ++ 46 :: u "acme.com") ++ u ">")
  = Some (u "billing").
Proof.
  apply (extract_business__of_address example_libraries
           (u "Billing <") (u "invoices") (u "billing") (u "acme.com") (u ">")).
  - discriminate.
  - repeat constructor.
  - repeat constructor.
  - repeat constructor.
  - apply (bool_decide_unpack _). vm_compute. exact I.
  - apply (bool_decide_unpack _). vm_compute. exact I.
  - reflexivity.
  - reflexivity.
Defined.

Lemma del_guards_disconnect_witness :
  __del__ log_imaplib
    (__init__ log_imaplib example_libraries (fun _ => None) (u "INBOX")).1
  = ((__init__ log_imaplib example_libraries (fun _ => None) (u "INBOX")).1, Ret tt)
  ∧ o_imap_server
      (__del__ log_imaplib
         (__init__ log_imaplib example_libraries (example_env "wrong") (u "INBOX")).1).1
    = Some [Logout].
Proof.
  split.
  - apply (proj1 (del_guards_disconnect log_imaplib _)). reflexivity.
  - apply (proj2 (del_guards_disconnect log_imaplib
                    (__init__ log_imaplib example_libraries (example_env "wrong")
                       (u "INBOX")).1) []).
    reflexivity.
Defined.

Lemma delete_email_spec_witness :
  o_imap_server
    (delete_email log_imaplib (u "4")
       (__init__ log_imaplib example_libraries (example_env "secret") (u "INBOX")).1).1
  = Some [Login; Select (u "INBOX"); Store (u "4") (u "(\Deleted)"); Expunge].
Proof.
  apply (proj2 (proj2 (proj2 (proj2
           (delete_email_spec log_imaplib (u "4")
              (__init__ log_imaplib example_libraries (example_env "secret")
                 (u "INBOX")).1))))
           [Login; Select (u "INBOX")]).
  reflexivity.
Defined.

Lemma flag_email_spec_witness :
  o_imap_server
    (flag_email log_imaplib (u "4")
       (__init__ log_imaplib example_libraries (example_env "secret") (u "INBOX")).1).1
  = Some [Login; Select (u "INBOX"); Store (u "4") (u "(\Flagged)")].
Proof.
  apply (proj2 (proj2 (proj2 (proj2
           (flag_email_spec log_imaplib (u "4")
              (__init__ log_imaplib example_libraries (example_env "secret")
                 (u "INBOX")).1))))
           [Login; Select (u "INBOX")]).
  reflexivity.
Defined.
